(** * download_pdfs: a crawler for Apache directory listings

    A shallow embedding of [scripts/download_pdfs.py] together with the
    properties its specification states about it.

    Conventions of the embedding.
    - A Python [str] is a [string]; the string methods the script calls are
      modelled in [Module Py] on ASCII text (code points below 128, the only
      ones that matter to the rules of the script: slash, dot, percent,
      question mark, hash, colon, white space and the letters of [.pdf]).
    - [urllib.parse] is an interface ([Class UrlLib]): the crawler is written
      against it, and [Module CPython] gives the CPython 3.11 implementation
      of its four functions, used wherever a concrete URL is evaluated.
    - The network is a read-only [Remote]: for each URL the listing page, the
      reply to a HEAD request and the file body.  [None] stands for a raised
      [urllib.error.URLError] (its subclass [HTTPError] included).
    - The file system is a finite map from [pathlib] paths to nodes; the
      operations that can raise [OSError] return [option].  Paths are
      tuples of parts and are looked up part by part: a part [..] is not
      resolved, so what is stated about files on disk is stated for paths
      without such a part.  Of the errors of the file system only a file
      or directory in the way is modelled (not permissions, nor names that
      are too long).
    - The exceptions modelled are [URLError] and [OSError].  What else the
      libraries can raise (a [ValueError] of [urljoin], an [InvalidURL] of
      a request, a [LookupError] of the decoding, an error of
      [HTMLParser.feed]) is outside the embedding: what is stated about
      the end of a run is stated for runs that none of these stops.
    - Everything the script prints and every HTTP request it issues is an
      [Event]; functions return the events they produce, in order.
    - The [while] loop of [crawl] takes fuel: it need not terminate on an
      infinite site. *)

From Stdlib Require Import ZArith Ascii String List Lia Bool.
From stdpp Require Import base gmap sets list strings.

Local Open Scope Z_scope.
Local Open Scope nat_scope.

(** ** Python string methods *)

Module Py.

Definition code (c : ascii) : nat := nat_of_ascii c.

Definition between (lo hi : nat) (c : ascii) : bool :=
  (lo <=? code c) && (code c <=? hi).

Definition isupper (c : ascii) : bool := between 65 90 c.
Definition isalpha (c : ascii) : bool := between 65 90 c || between 97 122 c.
Definition isdigit (c : ascii) : bool := between 48 57 c.

(** [str.isspace] on ASCII: TAB, LF, VT, FF, CR, FS, GS, RS, US, space. *)
Definition isspace (c : ascii) : bool :=
  between 9 13 c || between 28 32 c.

Definition lower_char (c : ascii) : ascii :=
  if isupper c then ascii_of_nat (code c + 32) else c.

(** [s.lower()] *)
Fixpoint lower (s : string) : string :=
  match s with
  | EmptyString => EmptyString
  | String c s' => String (lower_char c) (lower s')
  end.

(** [s.startswith(p)] *)
Fixpoint startswith (s p : string) {struct p} : bool :=
  match p, s with
  | EmptyString, _ => true
  | String a p', String b s' => Ascii.eqb a b && startswith s' p'
  | String _ _, EmptyString => false
  end.

(** [s[i:]] *)
Fixpoint drop (i : nat) (s : string) : string :=
  match i, s with
  | O, _ => s
  | S _, EmptyString => EmptyString
  | S i', String _ s' => drop i' s'
  end.

(** [s[:i]] *)
Fixpoint take (i : nat) (s : string) : string :=
  match i, s with
  | O, _ => EmptyString
  | S _, EmptyString => EmptyString
  | S i', String c s' => String c (take i' s')
  end.

(** [s.endswith(p)] *)
Definition endswith (s p : string) : bool :=
  (String.length p <=? String.length s)
  && String.eqb (drop (String.length s - String.length p) s) p.

(** [c in s] for a one-character [c] *)
Fixpoint contains (c : ascii) (s : string) : bool :=
  match s with
  | EmptyString => false
  | String d s' => Ascii.eqb d c || contains c s'
  end.

(** [s.lstrip(chars)], the characters given as a predicate *)
Fixpoint lstrip_by (p : ascii -> bool) (s : string) : string :=
  match s with
  | EmptyString => EmptyString
  | String c s' => if p c then lstrip_by p s' else s
  end.

(** [s.rstrip(chars)] *)
Fixpoint rstrip_by (p : ascii -> bool) (s : string) : string :=
  match s with
  | EmptyString => EmptyString
  | String c s' =>
      match rstrip_by p s' with
      | EmptyString => if p c then EmptyString else String c EmptyString
      | r => String c r
      end
  end.

(** [s.strip()] *)
Definition strip (s : string) : string := rstrip_by isspace (lstrip_by isspace s).

(** [s.lstrip("/")] *)
Definition lstrip (c : ascii) (s : string) : string := lstrip_by (Ascii.eqb c) s.

(** [s.split(sep)] for a one-character separator; never the empty list. *)
Fixpoint split (sep : ascii) (s : string) : list string :=
  match s with
  | EmptyString => [EmptyString]
  | String c s' =>
      if Ascii.eqb c sep then EmptyString :: split sep s'
      else match split sep s' with
           | h :: t => String c h :: t
           | [] => [String c EmptyString]
           end
  end.

(** [s.split(sep, 1)] when [sep in s]: the text before and after the first
    separator. *)
Fixpoint split1 (sep : ascii) (s : string) : option (string * string) :=
  match s with
  | EmptyString => None
  | String c s' =>
      if Ascii.eqb c sep then Some (EmptyString, s')
      else match split1 sep s' with
           | Some (a, b) => Some (String c a, b)
           | None => None
           end
  end.

(** [sep.join(l)] *)
Fixpoint join (sep : string) (l : list string) : string :=
  match l with
  | [] => EmptyString
  | [x] => x
  | x :: t => x +:+ sep +:+ join sep t
  end.

(** [s.replace(c, "")] for the characters satisfying [p] *)
Fixpoint remove_by (p : ascii -> bool) (s : string) : string :=
  match s with
  | EmptyString => EmptyString
  | String c s' => if p c then remove_by p s' else String c (remove_by p s')
  end.

(** [l[-1]] of a list of strings, [""] on the empty list (never taken on
    the result of [split]). *)
Definition last (l : list string) : string := List.last l EmptyString.

(** truthiness of a string: [not s] *)
Definition is_empty (s : string) : bool :=
  match s with EmptyString => true | _ => false end.

End Py.

(** ** [urllib.parse] *)

(** The named tuple [ParseResult]. *)
Record ParseResult := mkParseResult {
  scheme : string;
  netloc : string;
  path : string;
  params : string;
  query : string;
  fragment : string
}.

(** The four functions of [urllib.parse] the script calls. *)
Class UrlLib := {
  urlparse : string -> ParseResult;
  urljoin : string -> string -> string;
  urldefrag : string -> string * string;
  unquote : string -> string
}.

(** The implementation of CPython 3.11, [Lib/urllib/parse.py], on [str]
    arguments.  Left out: the two checks of [urlsplit] that raise
    [ValueError] (a netloc with unbalanced or ill-formed brackets, a netloc
    that changes under NFKC normalisation), and in [unquote] the UTF-8
    decoding of escaped bytes above 127, which stay single bytes here. *)
Module CPython.

Definition uses_relative : list string :=
  [""; "ftp"; "http"; "gopher"; "nntp"; "imap"; "wais"; "file"; "https";
   "shttp"; "mms"; "prospero"; "rtsp"; "rtspu"; "sftp"; "svn"; "svn+ssh";
   "ws"; "wss"].

Definition uses_netloc : list string :=
  [""; "ftp"; "http"; "gopher"; "nntp"; "telnet"; "imap"; "wais"; "file";
   "mms"; "https"; "shttp"; "snews"; "prospero"; "rtsp"; "rtspu"; "rsync";
   "svn"; "svn+ssh"; "sftp"; "nfs"; "git"; "git+ssh"; "ws"; "wss"].

Definition uses_params : list string :=
  [""; "ftp"; "hdl"; "prospero"; "http"; "imap"; "https"; "shttp"; "rtsp";
   "rtspu"; "sip"; "sips"; "mms"; "sftp"; "tel"].

Definition mem (s : string) (l : list string) : bool :=
  existsb (String.eqb s) l.

Definition scheme_char (c : ascii) : bool :=
  Py.isalpha c || Py.isdigit c || Py.contains c "+-.".

Fixpoint all_chars (p : ascii -> bool) (s : string) : bool :=
  match s with
  | EmptyString => true
  | String c s' => p c && all_chars p s'
  end.

(** [_WHATWG_C0_CONTROL_OR_SPACE] and [_UNSAFE_URL_BYTES_TO_REMOVE] *)
Definition c0_control_or_space (c : ascii) : bool := Py.code c <=? 32.
Definition unsafe_url_byte (c : ascii) : bool :=
  (Py.code c =? 9) || (Py.code c =? 13) || (Py.code c =? 10).

(** [_splitnetloc(url, 2)] applied to the text after the two slashes *)
Fixpoint splitnetloc (s : string) : string * string :=
  match s with
  | EmptyString => (EmptyString, EmptyString)
  | String c s' =>
      if Py.contains c "/?#" then (EmptyString, s)
      else let '(n, r) := splitnetloc s' in (String c n, r)
  end.

(** [urlsplit(url, scheme)]: scheme, netloc, path, query, fragment *)
Definition urlsplit (url0 dflt0 : string)
  : string * string * string * string * string :=
  let url := Py.remove_by unsafe_url_byte (Py.lstrip_by c0_control_or_space url0) in
  let dflt :=
    Py.remove_by unsafe_url_byte
      (Py.rstrip_by c0_control_or_space (Py.lstrip_by c0_control_or_space dflt0)) in
  let '(sch, url) :=
    match Py.split1 ":" url with
    | Some (String c0 pre, post) =>
        if Py.isalpha c0 && all_chars scheme_char (String c0 pre)
        then (Py.lower (String c0 pre), post)
        else (dflt, url)
    | _ => (dflt, url)
    end in
  let '(nl, url) :=
    if Py.startswith url "//" then splitnetloc (Py.drop 2 url)
    else (EmptyString, url) in
  let '(url, frag) :=
    match Py.split1 "#" url with
    | Some (a, b) => (a, b)
    | None => (url, EmptyString)
    end in
  let '(url, qry) :=
    match Py.split1 "?" url with
    | Some (a, b) => (a, b)
    | None => (url, EmptyString)
    end in
  (sch, nl, url, qry, frag).

(** [_splitparams(url)] *)
Definition splitparams (url : string) : string * string :=
  if Py.contains "/" url then
    (* the first ';' at or after the last '/' *)
    let segs := Py.split "/" url in
    let lastseg := Py.last segs in
    let front := Py.take (String.length url - String.length lastseg) url in
    match Py.split1 ";" lastseg with
    | Some (a, b) => (front +:+ a, b)
    | None => (url, EmptyString)
    end
  else
    match Py.split1 ";" url with
    | Some (a, b) => (a, b)
    | None => (Py.take (String.length url - 1) url, url)
    end.

Definition urlparse_with (url dflt : string) : ParseResult :=
  let '(sch, nl, p, qry, frag) := urlsplit url dflt in
  let '(p, prm) :=
    if mem sch uses_params && Py.contains ";" p then splitparams p
    else (p, EmptyString) in
  mkParseResult sch nl p prm qry frag.

Definition urlparse (url : string) : ParseResult := urlparse_with url "".

(** [urlunsplit] *)
Definition urlunsplit (sch nl url qry frag : string) : string :=
  let url :=
    if negb (Py.is_empty nl)
       || (negb (Py.is_empty sch) && mem sch uses_netloc
           && negb (Py.startswith url "//"))
    then
      let url :=
        if negb (Py.is_empty url) && negb (Py.startswith url "/")
        then "/" +:+ url else url in
      "//" +:+ nl +:+ url
    else url in
  let url := if Py.is_empty sch then url else sch +:+ ":" +:+ url in
  let url := if Py.is_empty qry then url else url +:+ "?" +:+ qry in
  if Py.is_empty frag then url else url +:+ "#" +:+ frag.

(** [urlunparse] *)
Definition urlunparse (r : ParseResult) : string :=
  let url :=
    if Py.is_empty (params r) then path r
    else path r +:+ ";" +:+ params r in
  urlunsplit (scheme r) (netloc r) url (query r) (fragment r).

(** [urldefrag] *)
Definition urldefrag (url : string) : string * string :=
  if Py.contains "#" url then
    let r := urlparse url in
    (urlunparse (mkParseResult (scheme r) (netloc r) (path r) (params r)
                   (query r) EmptyString),
     fragment r)
  else (url, EmptyString).

(** The loop of [urljoin] over the segments: [".."] pops, ["."] is
    dropped, anything else is appended. *)
Fixpoint resolve_segments (segs resolved : list string) : list string :=
  match segs with
  | [] => resolved
  | seg :: rest =>
      if String.eqb seg ".." then resolve_segments rest (removelast resolved)
      else if String.eqb seg "." then resolve_segments rest resolved
      else resolve_segments rest (resolved ++ [seg])
  end.

(** [segments[1:-1] = filter(None, segments[1:-1])] *)
Definition filter_inner (segs : list string) : list string :=
  match segs with
  | [] => []
  | [x] => [x]
  | x :: rest =>
      x :: List.filter (fun s => negb (Py.is_empty s)) (removelast rest)
        ++ [Py.last rest]
  end.

(** [urljoin(base, url)] *)
Definition urljoin (base url : string) : string :=
  if Py.is_empty base then url
  else if Py.is_empty url then base
  else
    let b := urlparse_with base "" in
    let u := urlparse_with url (scheme b) in
    if negb (String.eqb (scheme u) (scheme b))
       || negb (mem (scheme u) uses_relative)
    then url
    else if mem (scheme u) uses_netloc && negb (Py.is_empty (netloc u))
    then urlunparse u
    else
      let nl := if mem (scheme u) uses_netloc then netloc b else netloc u in
      if Py.is_empty (path u) && Py.is_empty (params u) then
        urlunparse
          (mkParseResult (scheme u) nl (path b) (params b)
             (if Py.is_empty (query u) then query b else query u)
             (fragment u))
      else
        let base_parts := Py.split "/" (path b) in
        let base_parts :=
          if Py.is_empty (Py.last base_parts) then base_parts
          else removelast base_parts in
        let segments :=
          if Py.startswith (path u) "/" then Py.split "/" (path u)
          else filter_inner (base_parts ++ Py.split "/" (path u)) in
        let resolved := resolve_segments segments [] in
        let resolved :=
          if String.eqb (Py.last segments) "."
             || String.eqb (Py.last segments) ".."
          then resolved ++ [EmptyString] else resolved in
        let joined := Py.join "/" resolved in
        urlunparse
          (mkParseResult (scheme u) nl
             (if Py.is_empty joined then "/" else joined)
             (params u) (query u) (fragment u)).

Definition hex_value (c : ascii) : option nat :=
  if Py.isdigit c then Some (Py.code c - 48)
  else if Py.between 65 70 c then Some (Py.code c - 55)
  else if Py.between 97 102 c then Some (Py.code c - 87)
  else None.

Definition hex2 (h l : ascii) : option ascii :=
  match hex_value h, hex_value l with
  | Some a, Some b => Some (ascii_of_nat (16 * a + b))
  | _, _ => None
  end.

(** [unquote]: every [%XY] with two hexadecimal digits becomes the byte
    [XY]; a percent sign not followed by two such digits stays. *)
Fixpoint unquote (s : string) : string :=
  match s with
  | EmptyString => EmptyString
  | String c s' =>
      match s' with
      | String h (String l s'') =>
          match (if Ascii.eqb c "%" then hex2 h l else None) with
          | Some b => String b (unquote s'')
          | None => String c (unquote s')
          end
      | _ => String c (unquote s')
      end
  end.

End CPython.

#[export] Instance cpython : UrlLib := {|
  urlparse := CPython.urlparse;
  urljoin := CPython.urljoin;
  urldefrag := CPython.urldefrag;
  unquote := CPython.unquote
|}.

(** ** [pathlib] *)

(** A [pathlib.Path] is the tuple of its [parts]: [/out/2020] is
    [["/"; "out"; "2020"]]. *)
Abbreviation Path := (list string).

Module pathlib.

(** The components of a path string after its root: empty segments and
    ["."] segments are dropped, [".."] is kept. *)
Definition components (s : string) : list string :=
  List.filter (fun seg => negb (Py.is_empty seg) && negb (String.eqb seg "."))
    (Py.split "/" s).

(** The root: ["/"], or ["//"] for exactly two leading slashes. *)
Definition root (s : string) : list string :=
  if Py.startswith s "//" && negb (Py.startswith s "///") then ["//"]
  else if Py.startswith s "/" then ["/"]
  else [].

(** [PurePosixPath(s).parts] *)
Definition parts (s : string) : Path := root s ++ components s.

(** [PurePosixPath(s).name] *)
Definition name (s : string) : string := Py.last (components s).

(** [p.joinpath] applied to [args]: an absolute argument replaces what
    precedes it. *)
Definition joinpath (p : Path) (args : list string) : Path :=
  fold_left (fun acc a => if Py.startswith a "/" then parts a else acc ++ parts a)
    args p.

(** [p.parent] *)
Definition parent (p : Path) : Path :=
  match p with
  | [r] => if Py.startswith r "/" then [r] else []
  | _ => removelast p
  end.

(** [str(p)] *)
Definition str (p : Path) : string :=
  match p with
  | [] => "."
  | r :: rest =>
      if Py.startswith r "/" then r +:+ Py.join "/" rest else Py.join "/" p
  end.

End pathlib.

(** ** The file system *)

Inductive Node :=
| File (content : list Byte.byte)
| Dir.

Abbreviation FS := (gmap (list string) Node).

Section FileSystem.

(** [st_size] of a directory depends on the platform. *)
Variable dir_st_size : Z.

(** [p.exists()] *)
Definition path_exists (fs : FS) (p : Path) : bool :=
  match fs !! p with Some _ => true | None => false end.

(** [p.stat().st_size], called on existing paths only *)
Definition st_size (fs : FS) (p : Path) : Z :=
  match fs !! p with
  | Some (File content) => Z.of_nat (length content)
  | Some Dir => dir_st_size
  | None => 0%Z
  end.

End FileSystem.

(** [p.mkdir(parents=True, exist_ok=True)]: every ancestor and [p] itself
    become directories; [None] ([FileExistsError], [NotADirectoryError])
    when one of them is a file. *)
Fixpoint mkdir_from (pre : Path) (rest : list string) (fs : FS) : option FS :=
  match rest with
  | [] => Some fs
  | seg :: rest' =>
      let p := pre ++ [seg] in
      match fs !! p with
      | Some (File _) => None
      | Some Dir => mkdir_from p rest' fs
      | None => mkdir_from p rest' (<[p := Dir]> fs)
      end
  end.

Definition mkdir (p : Path) (fs : FS) : option FS := mkdir_from [] p fs.

(** [with p.open("wb") as fh: shutil.copyfileobj(resp, fh)]: the file is
    created or truncated and receives the whole body; [None]
    ([IsADirectoryError]) when [p] is a directory. *)
Definition write_file (p : Path) (data : list Byte.byte) (fs : FS) : option FS :=
  match p, fs !! p with
  | [], _ => None
  | _, Some Dir => None
  | _, _ => Some (<[p := File data]> fs)
  end.

(** ** The network *)

(** What one request returns, as far as the script looks at it.
    - [listing url]: the start tags [html.parser.HTMLParser] reports for the
      page at [url], each with its attribute list ([None] for an attribute
      without a value);
    - [head url]: [Some (Some n)] for a [Content-Length] that [int] reads as
      [n], [Some None] when the header is missing, [None] when the request
      or the conversion raises;
    - [body url]: the bytes of the file. *)
Record Remote := mkRemote {
  listing : string -> option (list (string * list (string * option string)));
  head : string -> option (option Z);
  body : string -> option (list Byte.byte)
}.

(** ** Output and requests *)

Inductive Event :=
| CRAWL (normalized : string)
| WARN_fetch (current : string)
| QUEUE (absolute : string)
| FILE (absolute : string) (remote_size : option Z)
| WARN_download (absolute : string)
| INFO_size (url : string)
| SKIP (destination : Path) (local_size : Z)
| INFO_exists (destination : Path) (local_size : Z) (expected_size : option Z)
| DRY_RUN (url : string) (destination : Path) (expected_size : option Z)
| WARN_size (destination : Path) (expected_size downloaded_size : Z)
| DOWNLOADED (url : string) (destination : Path) (downloaded_size : Z)
| GET_listing (url : string)
| HEAD_file (url : string)
| GET_file (url : string).

Inductive Exn := URLError | OSError.

Inductive Completion :=
| Returned
| Raised (e : Exn).

(** ** [DirectoryListingParser] *)

Record DirectoryListingParser := mkParser { links : list string }.

(** [dict(attrs)]: a later pair overrides an earlier one with the same key. *)
Definition dict (attrs : list (string * option string)) : gmap string (option string) :=
  list_to_map (rev attrs).

Definition handle_starttag (self : DirectoryListingParser) (tag : string)
    (attrs : list (string * option string)) : DirectoryListingParser :=
  if negb (String.eqb (Py.lower tag) "a") then self
  else
    let attr_dict := dict attrs in
    match attr_dict !! "href" with
    | Some (Some href) =>
        if Py.is_empty href then self else mkParser (links self ++ [href])
    | _ => self
    end.

(** [parser.feed(content)], on the start tags of [content] *)
Definition feed (self : DirectoryListingParser)
    (tags : list (string * list (string * option string))) : DirectoryListingParser :=
  fold_left (fun p ta => handle_starttag p (fst ta) (snd ta)) tags self.

(** ** The functions of the script *)

Section Script.

Context {U : UrlLib}.
Variable net : Remote.
Variable dir_st_size : Z.

Definition fetch_links (url : string) : option (list string) :=
  match listing net url with
  | None => None
  | Some tags => Some (links (feed (mkParser []) tags))
  end.

Definition normalize_directory_url (url : string) : string :=
  let stripped := fst (urldefrag url) in
  if negb (Py.endswith stripped "/") then stripped +:+ "/" else stripped.

Definition is_same_origin (url base : string) : bool :=
  let parsed_url := urlparse url in
  let parsed_base := urlparse base in
  String.eqb (scheme parsed_url) (scheme parsed_base)
  && String.eqb (netloc parsed_url) (netloc parsed_base).

Definition is_within_base_path (url base : string) : bool :=
  let url_path := path (urlparse url) in
  let base_path := path (urlparse base) in
  let base_path :=
    if negb (Py.endswith base_path "/") then base_path +:+ "/" else base_path in
  Py.startswith url_path base_path.

Definition should_skip_link (href : string) : bool :=
  let href_lower := Py.lower href in
  Py.startswith href_lower "?" || Py.startswith href_lower "#"
  || Py.startswith href_lower "javascript:" || Py.startswith href_lower "mailto:".

Definition classify_link (href : string) : string :=
  let decoded := Py.strip (unquote href) in
  if String.eqb decoded "" || String.eqb decoded "." || String.eqb decoded ".."
     || Py.startswith decoded "../"
  then "skip"
  else if Py.endswith (Py.lower decoded) ".pdf" then "pdf"
  else if Py.endswith decoded "/" then "dir"
  else if negb (Py.contains "." (Py.last (Py.split "/" decoded))) then "dir"
  else "other".

Definition get_remote_file_size (url : string) : option Z * list Event :=
  match head net url with
  | Some (Some length) => (Some length, [HEAD_file url])
  | Some None => (None, [HEAD_file url])
  | None => (None, [HEAD_file url; INFO_size url])
  end.

Definition download_file (url : string) (destination : Path) (dry_run : bool)
    (expected_size : option Z) (fs : FS) : Completion * FS * list Event :=
  let exists_check :=
    if path_exists fs destination then
      let local_size := st_size dir_st_size fs destination in
      match expected_size with
      | Some e =>
          if Z.eqb local_size e then inl [SKIP destination local_size]
          else inr [INFO_exists destination local_size expected_size]
      | None => inr [INFO_exists destination local_size expected_size]
      end
    else inr [] in
  match exists_check with
  | inl out => (Returned, fs, out)
  | inr out =>
      if dry_run then (Returned, fs, out ++ [DRY_RUN url destination expected_size])
      else
        match mkdir (pathlib.parent destination) fs with
        | None => (Raised OSError, fs, out)
        | Some fs1 =>
            match body net url with
            | None => (Raised URLError, fs1, out ++ [GET_file url])
            | Some data =>
                match write_file destination data fs1 with
                | None => (Raised OSError, fs1, out ++ [GET_file url])
                | Some fs2 =>
                    let downloaded_size := st_size dir_st_size fs2 destination in
                    let report :=
                      match expected_size with
                      | Some e =>
                          if negb (Z.eqb downloaded_size e)
                          then WARN_size destination e downloaded_size
                          else DOWNLOADED url destination downloaded_size
                      | None => DOWNLOADED url destination downloaded_size
                      end in
                    (Returned, fs2, out ++ [GET_file url; report])
                end
            end
        end
  end.

Definition build_local_path (url base : string) (dest_root : Path) : Path :=
  let parsed_url := urlparse url in
  let parsed_base := urlparse base in
  let base_path := path parsed_base in
  let base_path :=
    if negb (Py.endswith base_path "/") then base_path +:+ "/" else base_path in
  let rel_path := path parsed_url in
  let rel_path :=
    if Py.startswith rel_path base_path
    then Py.drop (String.length base_path) rel_path else rel_path in
  let rel_path := Py.lstrip "/" rel_path in
  let rel_path :=
    if Py.is_empty rel_path then pathlib.name (path parsed_url) else rel_path in
  pathlib.joinpath dest_root (pathlib.parts rel_path).

(** *** [crawl] *)

(** The variables of [crawl] that change while it runs. *)
Record State := mkState {
  queue : list string;
  visited : gset string;
  fs : FS
}.

(** [queue.pop()]: the last element and the list without it. *)
Definition pop (q : list string) : option (string * list string) :=
  match rev q with
  | [] => None
  | x :: r => Some (x, rev r)
  end.

(** The body of [for href in links]. *)
Definition process_link (base_url : string) (dest_root : Path) (dry_run : bool)
    (current href : string) (st : State) : Completion * State * list Event :=
  if should_skip_link href then (Returned, st, [])
  else
    let absolute := urljoin current href in
    let absolute := fst (urldefrag absolute) in
    if negb (is_same_origin absolute base_url)
       || negb (is_within_base_path absolute base_url)
    then (Returned, st, [])
    else
      let classification := classify_link href in
      if String.eqb classification "dir" then
        (Returned, mkState (queue st ++ [absolute]) (visited st) (fs st),
         [QUEUE absolute])
      else if String.eqb classification "pdf" then
        let local_path := build_local_path absolute base_url dest_root in
        let '(remote_size, probe) := get_remote_file_size absolute in
        let out := probe ++ [FILE absolute remote_size] in
        match download_file absolute local_path dry_run remote_size (fs st) with
        | (Raised URLError, fs', out') =>
            (Returned, mkState (queue st) (visited st) fs',
             out ++ out' ++ [WARN_download absolute])
        | (r, fs', out') =>
            (r, mkState (queue st) (visited st) fs', out ++ out')
        end
      else (Returned, st, []).

(** [for href in links: ...]; an exception leaves the loop. *)
Fixpoint for_links (base_url : string) (dest_root : Path) (dry_run : bool)
    (current : string) (hrefs : list string) (st : State)
  : Completion * State * list Event :=
  match hrefs with
  | [] => (Returned, st, [])
  | href :: rest =>
      match process_link base_url dest_root dry_run current href st with
      | (Returned, st1, out1) =>
          let '(r, st2, out2) :=
            for_links base_url dest_root dry_run current rest st1 in
          (r, st2, out1 ++ out2)
      | (Raised e, st1, out1) => (Raised e, st1, out1)
      end
  end.

(** One iteration of [while queue], entered with [current] popped off. *)
Definition visit (base_url : string) (dest_root : Path) (dry_run : bool)
    (current : string) (st : State) : Completion * State * list Event :=
  let normalized := normalize_directory_url current in
  if decide (normalized ∈ visited st) then (Returned, st, [])
  else
    let st := mkState (queue st) (visited st ∪ {[normalized]}) (fs st) in
    match fetch_links current with
    | None =>
        (Returned, st, [CRAWL normalized; GET_listing current; WARN_fetch current])
    | Some hrefs =>
        let '(r, st', out) :=
          for_links base_url dest_root dry_run current hrefs st in
        (r, st', [CRAWL normalized; GET_listing current] ++ out)
    end.

(** How a run of the loop ended. *)
Inductive Status :=
| Finished
| Aborted (e : Exn)
| OutOfFuel.

(** [while queue: ...], at most [fuel] iterations. *)
Fixpoint while_queue (fuel : nat) (base_url : string) (dest_root : Path)
    (dry_run : bool) (st : State) : Status * State * list Event :=
  match pop (queue st) with
  | None => (Finished, st, [])
  | Some (current, rest) =>
      match fuel with
      | O => (OutOfFuel, st, [])
      | S fuel' =>
          match visit base_url dest_root dry_run current
                  (mkState rest (visited st) (fs st)) with
          | (Returned, st1, out1) =>
              let '(r, st2, out2) :=
                while_queue fuel' base_url dest_root dry_run st1 in
              (r, st2, out1 ++ out2)
          | (Raised e, st1, out1) => (Aborted e, st1, out1)
          end
      end
  end.

Definition crawl (fuel : nat) (base_url : string) (dest_root : Path)
    (dry_run : bool) (fs0 : FS) : Status * State * list Event :=
  let base_url := normalize_directory_url base_url in
  while_queue fuel base_url dest_root dry_run (mkState [base_url] ∅ fs0).

End Script.


(** ** Vocabulary of the specification *)

Section Vocabulary.

Context {U : UrlLib}.

(** [isInScope(url, root)]: the two tests [crawl] makes on a resolved link. *)
Definition is_in_scope (url root : string) : bool :=
  is_same_origin url root && is_within_base_path url root.

(** The class of a raw href as [crawl] decides it: the prefix test first,
    then [classify_link]. *)
Definition link_class (href : string) : string :=
  if should_skip_link href then "skip" else classify_link href.

(** The URL an event says was queued, probed, or handed to [download_file]. *)
Definition dispatched_url (e : Event) : option string :=
  match e with
  | QUEUE u | FILE u _ | HEAD_file u | GET_file u | INFO_size u
  | WARN_download u | DRY_RUN u _ _ | DOWNLOADED u _ _ => Some u
  | _ => None
  end.

(** The URLs appended to the queue, in order. *)
Definition queued (out : list Event) : list string :=
  omap (fun e => match e with QUEUE u => Some u | _ => None end) out.

(** The URLs whose listing was requested, in order. *)
Definition fetched (out : list Event) : list string :=
  omap (fun e => match e with GET_listing u => Some u | _ => None end) out.

(** The files handed to [download_file], each with its probed size. *)
Definition files (out : list Event) : list (string * option Z) :=
  omap (fun e => match e with FILE u sz => Some (u, sz) | _ => None end) out.

(** Events of the traversal proper: what is visited, queued and probed.
    The others report what [download_file] did. *)
Definition is_traversal (e : Event) : bool :=
  match e with
  | CRAWL _ | WARN_fetch _ | QUEUE _ | FILE _ _ | INFO_size _
  | GET_listing _ | HEAD_file _ => true
  | _ => false
  end.

Definition traversal (out : list Event) : list Event := List.filter is_traversal out.

Definition is_GET_file (e : Event) : bool :=
  match e with GET_file _ => true | _ => false end.



(** What [download_file] may report about [url]: no traversal event, and no
    other URL. *)
Definition download_report (url : string) (e : Event) : Prop :=
  is_traversal e = false /\ (forall u, dispatched_url e = Some u -> u = url).

(** Every URL the event names as queued, probed or downloaded is in scope. *)
Definition scoped (root : string) (e : Event) : Prop :=
  forall u, dispatched_url e = Some u -> is_in_scope u root = true.

(** The normalised form of [u] is not in [seen]. *)
Definition unvisited (seen : gset string) (u : string) : bool :=
  bool_decide (normalize_directory_url u ∉ seen).

(** The last element of [l] that is not yet visited. *)
Definition last_unvisited (seen : gset string) (l : list string) : option string :=
  List.find (unvisited seen) (rev l).

(** Number of hrefs on the page at [u]; a page that cannot be fetched has none. *)
Definition link_count (net : Remote) (u : string) : nat :=
  match fetch_links net u with
  | Some hrefs => length hrefs
  | None => 0
  end.

(** Iterations of [while queue] that suffice on a site whose pages are
    among [pages]. *)
Definition crawl_bound (net : Remote) (pages : list string) : nat :=
  1 + list_sum (map (link_count net) pages).

End Vocabulary.

(** ** The loop body in two steps

    The body of [for href in links] first decides what to do with the link,
    which depends on the link alone, and then does it. *)

Inductive LinkAction :=
| Ignore
| Enqueue (absolute : string)
| Download (absolute : string).

Section Decomposition.

Context {U : UrlLib}.
Variable net : Remote.
Variable dir_st_size : Z.

Definition resolve_link (base_url current href : string) : LinkAction :=
  if should_skip_link href then Ignore
  else
    let absolute := fst (urldefrag (urljoin current href)) in
    if negb (is_same_origin absolute base_url)
       || negb (is_within_base_path absolute base_url)
    then Ignore
    else
      let classification := classify_link href in
      if String.eqb classification "dir" then Enqueue absolute
      else if String.eqb classification "pdf" then Download absolute
      else Ignore.

(** The [pdf] branch. *)
Definition dispatch_file (base_url : string) (dest_root : Path) (dry_run : bool)
    (absolute : string) (st : State) : Completion * State * list Event :=
  let local_path := build_local_path absolute base_url dest_root in
  let '(remote_size, probe) := get_remote_file_size net absolute in
  let out := probe ++ [FILE absolute remote_size] in
  match download_file net dir_st_size absolute local_path dry_run remote_size
          (fs st) with
  | (Raised URLError, fs', out') =>
      (Returned, mkState (queue st) (visited st) fs',
       out ++ out' ++ [WARN_download absolute])
  | (r, fs', out') => (r, mkState (queue st) (visited st) fs', out ++ out')
  end.

(** The traversal events of one link. *)
Definition link_trace (base_url current href : string) : list Event :=
  match resolve_link base_url current href with
  | Ignore => []
  | Enqueue absolute => [QUEUE absolute]
  | Download absolute =>
      snd (get_remote_file_size net absolute)
      ++ [FILE absolute (fst (get_remote_file_size net absolute))]
  end.

(** The traversal events of a page whose links were all processed. *)
Definition page_trace (base_url current : string) (hrefs : list string)
  : list Event :=
  flat_map (link_trace base_url current) hrefs.




(** What is left to do: the queue, and the links of the pages among [pages]
    not visited yet. *)
Definition work_left (pages : list string) (st : State) : nat :=
  length (queue st)
  + list_sum (map (fun p => if decide (normalize_directory_url p ∈ visited st)
                            then 0 else link_count net p) pages).

End Decomposition.

(** The value of the last [href] attribute of a start tag, when it is a
    non-empty string. *)
Definition last_href (attrs : list (string * option string)) : option string :=
  match List.find (fun kv => String.eqb (fst kv) "href") (rev attrs) with
  | Some (_, Some v) => if Py.is_empty v then None else Some v
  | _ => None
  end.

Definition anchor_href (ta : string * list (string * option string)) : option string :=
  if String.eqb (Py.lower (fst ta)) "a" then last_href (snd ta) else None.


(** Local path derivation in the words of the specification (4.7), to be
    compared with [build_local_path]: the remainder of the path is
    percent-decoded segment by segment. *)
Definition spec_localPath `{UrlLib} (fileUrl root : string) (destRoot : Path) : Path :=
  let root_path := path (urlparse root) in
  let root_path :=
    if Py.endswith root_path "/" then root_path else root_path +:+ "/" in
  let file_path := path (urlparse fileUrl) in
  let rest :=
    if Py.startswith file_path root_path
    then Py.drop (String.length root_path) file_path else file_path in
  let rest := Py.lstrip "/" rest in
  let rest := if Py.is_empty rest then pathlib.name file_path else rest in
  destRoot ++ map unquote (pathlib.components rest).

(** ** Sample sites *)

Definition anchor (href : string) : string * list (string * option string) :=
  ("a", [("href", Some href)]).

(** A site given by the table of its listing pages. *)
Definition site_listing (table : list (string * list string)) (u : string)
  : option (list (string * list (string * option string))) :=
  match List.find (fun kv => String.eqb (fst kv) u) table with
  | Some (_, hrefs) => Some (map anchor hrefs)
  | None => None
  end.

Definition three_bytes : list Byte.byte := [Byte.x25; Byte.x50; Byte.x44].

(** Two directories that link to each other: [/a/] lists [b/], and [/a/b/]
    lists [/a/] and one file. *)
Definition cycle_site : Remote := {|
  listing := site_listing
    [("https://h/a/", ["?C=N;O=D"; "b/"]);
     ("https://h/a/b/", ["/a/"; "x.pdf"])];
  head := fun _ => Some (Some 3%Z);
  body := fun _ => Some three_bytes
|}.

(** A listing with a sub-directory entry that has no trailing slash. *)
Definition readme_site : Remote := {|
  listing := site_listing
    [("https://h/images/", ["readme"]);
     ("https://h/images/readme", ["x.pdf"])];
  head := fun _ => Some (Some 3%Z);
  body := fun _ => Some three_bytes
|}.

(** One file whose size the server does not announce. *)
Definition unsized_site : Remote := {|
  listing := site_listing [("https://h/images/", ["top.pdf"])];
  head := fun _ => Some None;
  body := fun _ => Some three_bytes
|}.

(** Files whose announced size is the length of their body. *)
Definition sized_site : Remote := {|
  listing := site_listing
    [("https://h/images/", ["2020/"; "top.pdf"]);
     ("https://h/images/2020/", ["report.pdf"; "top.pdf"])];
  head := fun _ => Some (Some 3%Z);
  body := fun _ => Some three_bytes
|}.

Definition out_dir : FS := {[ ["/"] := Dir; ["/"; "out"] := Dir ]}.

(** The run on [cycle_site] from [https://h/a]: what it prints and requests
    in dry-run mode and in a real run, and where it ends. *)
Definition cycle_visited : gset string := {[ "https://h/a/"; "https://h/a/b/" ]}.

Definition cycle_traversal : list Event :=
  [CRAWL "https://h/a/"; GET_listing "https://h/a/"; QUEUE "https://h/a/b/";
   CRAWL "https://h/a/b/"; GET_listing "https://h/a/b/"; QUEUE "https://h/a/";
   HEAD_file "https://h/a/b/x.pdf"; FILE "https://h/a/b/x.pdf" (Some 3%Z)].

Definition cycle_dry_log : list Event :=
  cycle_traversal
  ++ [DRY_RUN "https://h/a/b/x.pdf" ["/"; "out"; "b"; "x.pdf"] (Some 3%Z)].

Definition cycle_log : list Event :=
  cycle_traversal
  ++ [GET_file "https://h/a/b/x.pdf";
      DOWNLOADED "https://h/a/b/x.pdf" ["/"; "out"; "b"; "x.pdf"] 3].

Definition cycle_tree : FS :=
  <[ ["/"; "out"; "b"; "x.pdf"] := File three_bytes ]>
    (<[ ["/"; "out"; "b"] := Dir ]> out_dir).




(** The tree after a run on [unsized_site]. *)
Definition unsized_tree : FS :=
  <[ ["/"; "out"; "top.pdf"] := File three_bytes ]> out_dir.


(** ** [main]

    [main] as it runs once [parse_args] has returned its [Namespace]. *)

Record Namespace := mkNamespace {
  args_base_url : string;
  args_dest : string;
  args_dry_run : bool
}.

(** The lines [main] prints before the crawl. *)
Inductive Banner :=
| STARTING (base_url : string)
| SAVING (dest_root : Path)
| DRY_RUN_MODE.

Section Main.

Context {U : UrlLib}.
Variable net : Remote.
Variable dir_st_size : Z.

(** [pathlib.Path(os.path.abspath(dest))], which depends on the working
    directory of the process. *)
Variable abspath : string -> Path.

(** [None] when [dest_root.mkdir(parents=True, exist_ok=True)] raises. *)
Definition main (fuel : nat) (args : Namespace) (fs0 : FS)
  : option (list Banner * (Status * State * list Event)) :=
  let dest_root := abspath (args_dest args) in
  match mkdir dest_root fs0 with
  | None => None
  | Some fs1 =>
      Some ([STARTING (args_base_url args); SAVING dest_root]
            ++ (if args_dry_run args then [DRY_RUN_MODE] else []),
            crawl net dir_st_size fuel (args_base_url args) dest_root
              (args_dry_run args) fs1)
  end.

End Main.

(** A site with a directory that cannot be listed, a file whose size
    cannot be probed and whose body cannot be fetched, and a file that is
    served. *)
Definition flaky_site : Remote := {|
  listing := site_listing [("https://h/images/", ["gone/"; "lost.pdf"; "ok.pdf"])];
  head := fun u =>
    if String.eqb u "https://h/images/ok.pdf" then Some (Some 3%Z) else None;
  body := fun u =>
    if String.eqb u "https://h/images/lost.pdf" then None else Some three_bytes
|}.

Definition flaky_log : list Event :=
  [CRAWL "https://h/images/"; GET_listing "https://h/images/";
   QUEUE "https://h/images/gone/";
   HEAD_file "https://h/images/lost.pdf"; INFO_size "https://h/images/lost.pdf";
   FILE "https://h/images/lost.pdf" None;
   GET_file "https://h/images/lost.pdf"; WARN_download "https://h/images/lost.pdf";
   HEAD_file "https://h/images/ok.pdf"; FILE "https://h/images/ok.pdf" (Some 3%Z);
   GET_file "https://h/images/ok.pdf";
   DOWNLOADED "https://h/images/ok.pdf" ["/"; "out"; "ok.pdf"] 3;
   CRAWL "https://h/images/gone/"; GET_listing "https://h/images/gone/";
   WARN_fetch "https://h/images/gone/"].

Definition flaky_tree : FS :=
  <[ ["/"; "out"; "ok.pdf"] := File three_bytes ]> out_dir.

(** ** Changes to the file system *)

(** From [before] to [after] nothing outside the tree of [dest_root] has
    changed: a path that is neither [dest_root], nor above it, nor below it
    holds what it held; no path has disappeared; and what was a directory
    is one still.  Paths are compared part by part, as [pathlib] joins
    them: a part [..] is a part like any other. *)
Definition confined_to (dest_root : Path) (before after : FS) : Prop :=
  (forall p, ~ p `prefix_of` dest_root -> ~ dest_root `prefix_of` p ->
             after !! p = before !! p)
  /\ (forall p, is_Some (before !! p) -> is_Some (after !! p))
  /\ (forall p, before !! p = Some Dir -> after !! p = Some Dir).

(** * Properties *)

(** ** Strings and paths *)

#[local] Set Warnings "-clear-no-such-hyp".
#[local] Arguments Ascii.eqb : simpl never.
#[local] Arguments String.eqb : simpl never.

Lemma startswith_char (c : ascii) (s : string) :
  Py.startswith s (String c EmptyString)
  = match s with String d _ => Ascii.eqb c d | EmptyString => false end.
Proof. destruct s as [|d s]; simpl; [done|]. by rewrite andb_true_r. Qed.

Lemma lstrip_not_slash (s : string) : Py.startswith (Py.lstrip "/" s) "/" = false.
Proof.
  unfold Py.lstrip.
  induction s as [|c s IH]; [done|].
  cbn [Py.lstrip_by].
  destruct (Ascii.eqb "/" c) eqn:E; [exact IH|].
  by rewrite startswith_char.
Qed.

#[local] Arguments Py.startswith : simpl never.

(** No segment produced by [split] contains the separator. *)
Lemma split_no_sep (sep : ascii) (s seg : string) :
  In seg (Py.split sep s) -> Py.contains sep seg = false.
Proof.
  revert seg. induction s as [|c s IH]; simpl; intros seg.
  - intros [<-|[]]. done.
  - destruct (Ascii.eqb c sep) eqn:E.
    + intros [<-|Hin]; [done | by apply IH].
    + destruct (Py.split sep s) as [|h t] eqn:Hs.
      * intros [<-|[]]. simpl. by rewrite E.
      * intros [<-|Hin].
        -- simpl. rewrite E. simpl. apply IH. by left.
        -- apply IH. by right.
Qed.

(** A string without the separator is its own single segment. *)
Lemma split_single (sep : ascii) (s : string) :
  Py.contains sep s = false -> Py.split sep s = [s].
Proof.
  induction s as [|c s IH]; simpl; [done|].
  intros H. apply orb_false_iff in H as [Hc Hs].
  rewrite Hc, (IH Hs). done.
Qed.

Lemma contains_startswith (c : ascii) (s : string) :
  Py.contains c s = false -> Py.startswith s (String c EmptyString) = false.
Proof.
  rewrite startswith_char. destruct s as [|d s]; [done|].
  cbn [Py.contains].
  intros H. apply orb_false_iff in H as [Hd _].
  by rewrite Ascii.eqb_sym in Hd.
Qed.

Lemma startswith_two (c : ascii) (s : string) :
  Py.startswith s (String c EmptyString) = false ->
  Py.startswith s (String c (String c EmptyString)) = false.
Proof.
  rewrite startswith_char.
  destruct s as [|d s]; [done|].
  intros H.
  change (Ascii.eqb c d && Py.startswith s (String c EmptyString) = false).
  by rewrite H.
Qed.

(** A component of a path string is one part on its own. *)
Lemma parts_component (s seg : string) :
  In seg (pathlib.components s) ->
  Py.startswith seg "/" = false /\ pathlib.parts seg = [seg].
Proof.
  unfold pathlib.components. rewrite filter_In. intros [Hin Hok].
  apply andb_true_iff in Hok as [Hne Hdot].
  pose proof (split_no_sep _ _ _ Hin) as Hns.
  pose proof (contains_startswith _ _ Hns) as Hst.
  split; [exact Hst|].
  unfold pathlib.parts, pathlib.root, pathlib.components.
  rewrite (startswith_two _ _ Hst), Hst, (split_single _ _ Hns). simpl.
  by rewrite Hne, Hdot.
Qed.

Lemma joinpath_components (p : Path) (l : list string) (s : string) :
  (forall seg, In seg l -> In seg (pathlib.components s)) ->
  pathlib.joinpath p l = p ++ l.
Proof.
  unfold pathlib.joinpath. revert p.
  induction l as [|a l IH]; intros p Hl; simpl.
  - by rewrite app_nil_r.
  - destruct (parts_component s a) as [-> ->]; [apply Hl; by left|].
    rewrite IH; [|intros; apply Hl; by right].
    by rewrite <- app_assoc.
Qed.

(** Joining the parts of a relative path string appends its components. *)
Lemma joinpath_parts (p : Path) (s : string) :
  Py.startswith s "/" = false ->
  pathlib.joinpath p (pathlib.parts s) = p ++ pathlib.components s.
Proof.
  intros Hs. unfold pathlib.parts, pathlib.root.
  rewrite (startswith_two _ _ Hs), Hs. simpl.
  by apply joinpath_components with (s := s).
Qed.

Lemma name_not_slash (s : string) : Py.startswith (pathlib.name s) "/" = false.
Proof.
  unfold pathlib.name, Py.last.
  destruct (pathlib.components s) as [|a l] eqn:E; [done|].
  assert (In (List.last (a :: l) EmptyString) (pathlib.components s)) as Hin.
  { rewrite E. destruct (exists_last (l := a :: l)) as (l' & x & ->); [done|].
    rewrite last_last. apply in_or_app. right. by left. }
  by destruct (parts_component _ _ Hin).
Qed.

(** ** Link classification *)

(** C5. The class of a raw href, decided by the prefix test and then
    [classify_link], on the table of the specification: [report.pdf] is a
    file to download ([pdf]); [sub/] is a directory; [..], [../x], [?C=N],
    [#frag], [javascript:x] and [mailto:a@b] are skipped; [readme], with no
    dot and no trailing slash, is a directory; [image.png] is [other].
    The last four lines show that the prefix test ignores case, and that
    [classify_link] decodes percent escapes and trims white space before it
    looks at the extension, whose case it ignores, and at the final slash. *)
Theorem link_class_table :
  link_class "report.pdf" = "pdf"
  /\ link_class "sub/" = "dir"
  /\ link_class ".." = "skip"
  /\ link_class "../x" = "skip"
  /\ link_class "?C=N" = "skip"
  /\ link_class "#frag" = "skip"
  /\ link_class "javascript:x" = "skip"
  /\ link_class "mailto:a@b" = "skip"
  /\ link_class "readme" = "dir"
  /\ link_class "image.png" = "other"
  /\ link_class "JavaScript:x" = "skip"
  /\ link_class "MailTo:a@b" = "skip"
  /\ link_class " Report%2EPDF " = "pdf"
  /\ link_class "sub%2F " = "dir".
Proof. vm_compute. repeat split. Qed.

(** ** Local path derivation *)

(** C6, as the specification words it, fails: [build_local_path] never
    decodes percent escapes.  The file of href [a%20b.pdf] is stored under
    that very name, not under [a b.pdf]. *)
Lemma build_local_path_keeps_escapes :
  build_local_path "https://h/images/a%20b.pdf" "https://h/images/" ["/"; "out"]
  <> spec_localPath "https://h/images/a%20b.pdf" "https://h/images/" ["/"; "out"].
Proof. vm_compute. discriminate. Qed.

(** C6, amended.  [build_local_path] takes the URL's path, removes the
    root's path (made to end with a slash) when the URL's path starts with
    it, then any leading slashes, and appends to [dest_root] the components
    of what remains, exactly as they appear in the URL (no
    percent-decoding); when nothing remains it appends the final component
    of the URL's path.  With root [https://h/images/], file
    [https://h/images/2020/report.pdf] and destination [/out] the result is
    [/out/2020/report.pdf]. *)
Theorem build_local_path_derivation :
  (forall (U : UrlLib) (url base : string) (dest_root : Path),
     let base_path := path (urlparse base) in
     let base_path :=
       if Py.endswith base_path "/" then base_path else base_path +:+ "/" in
     let url_path := path (urlparse url) in
     let rest :=
       Py.lstrip "/"
         (if Py.startswith url_path base_path
          then Py.drop (String.length base_path) url_path else url_path) in
     build_local_path url base dest_root
     = dest_root ++ pathlib.components
         (if Py.is_empty rest then pathlib.name url_path else rest))
  /\ build_local_path "https://h/images/2020/report.pdf" "https://h/images/"
       ["/"; "out"] = ["/"; "out"; "2020"; "report.pdf"]
  /\ pathlib.str
       (build_local_path "https://h/images/2020/report.pdf" "https://h/images/"
          ["/"; "out"]) = "/out/2020/report.pdf"
  /\ build_local_path "https://h/images/a%20b.pdf" "https://h/images/"
       ["/"; "out"] = ["/"; "out"; "a%20b.pdf"].
Proof.
  split; [|by vm_compute].
  intros U url base dest_root.
  unfold build_local_path. cbv zeta.
  destruct (Py.endswith (path (urlparse base)) "/"); simpl negb; cbv iota;
    match goal with
    | |- context [Py.is_empty ?r] =>
        destruct (Py.is_empty r) eqn:E;
        [ apply joinpath_parts, name_not_slash
        | apply joinpath_parts, lstrip_not_slash ]
    end.
Qed.

(** The derivation at two files: the one of the specification's example,
    below the root, and one outside the root's path, whose whole path is
    kept. *)
Lemma build_local_path_derivation_witness :
  build_local_path "https://h/images/2020/report.pdf" "https://h/images/"
    ["/"; "out"] = ["/"; "out"] ++ pathlib.components "2020/report.pdf"
  /\ build_local_path "https://h/docs/x.pdf" "https://h/images/"
       ["/"; "out"] = ["/"; "out"] ++ pathlib.components "docs/x.pdf".
Proof.
  split.
  - exact (proj1 build_local_path_derivation cpython
             "https://h/images/2020/report.pdf" "https://h/images/" ["/"; "out"]).
  - exact (proj1 build_local_path_derivation cpython
             "https://h/docs/x.pdf" "https://h/images/" ["/"; "out"]).
Defined.

(** ** Link extraction *)

Lemma list_to_map_find (l : list (string * option string)) (k : string) :
  (list_to_map l : gmap string (option string)) !! k
  = snd <$> List.find (fun kv => String.eqb (fst kv) k) l.
Proof.
  induction l as [|[k' v] l IH]; [done|].
  cbn [list_to_map foldr List.find fst uncurry].
  destruct (String.eqb_spec k' k) as [->|Hne].
  - by rewrite lookup_insert_eq.
  - by rewrite lookup_insert_ne.
Qed.

Lemma handle_starttag_links (self : DirectoryListingParser) (tag : string)
    (attrs : list (string * option string)) :
  links (handle_starttag self tag attrs)
  = links self ++ option_list (anchor_href (tag, attrs)).
Proof.
  unfold handle_starttag, anchor_href, last_href, dict. cbn [fst snd].
  rewrite list_to_map_find.
  destruct (String.eqb (Py.lower tag) "a"); cbn [negb];
    [|by rewrite app_nil_r].
  destruct (List.find _ (rev attrs)) as [[k [v|]]|]; cbn [fmap option_fmap option_map snd];
    try by rewrite app_nil_r.
  destruct (Py.is_empty v); [by rewrite app_nil_r | done].
Qed.




(** ** The downloader *)

Lemma write_file_Some (p : Path) (data : list Byte.byte) (fs1 fs2 : FS) :
  write_file p data fs1 = Some fs2 -> fs2 = <[p := File data]> fs1.
Proof.
  unfold write_file. destruct p as [|a p]; [done|].
  destruct (fs1 !! (a :: p)) as [[c|]|]; congruence.
Qed.

Lemma st_size_written (dsz : Z) (p : Path) (data : list Byte.byte) (fs1 : FS) :
  st_size dsz (<[p := File data]> fs1) p = Z.of_nat (length data).
Proof. unfold st_size. by rewrite lookup_insert_eq. Qed.

(** The test at the head of [download_file]. *)
Lemma up_to_date_spec (dsz : Z) (fs : FS) (dest : Path) (exp : option Z) :
  let b := path_exists fs dest
           && match exp with
              | Some e => Z.eqb (st_size dsz fs dest) e
              | None => false
              end in
  (b = true <-> path_exists fs dest = true /\ exp = Some (st_size dsz fs dest)).
Proof.
  cbv zeta. rewrite andb_true_iff.
  split; intros [Hex He]; (split; [done|]).
  - destruct exp as [e|]; [|done]. apply Z.eqb_eq in He. congruence.
  - rewrite He. apply Z.eqb_refl.
Qed.

(** [download_file] with its first test made once. *)
Lemma download_file_unfold (net : Remote) (dsz : Z) (url : string) (dest : Path)
    (dry : bool) (exp : option Z) (fs : FS) :
  download_file net dsz url dest dry exp fs
  = if path_exists fs dest
       && match exp with
          | Some e => Z.eqb (st_size dsz fs dest) e
          | None => false
          end
    then (Returned, fs, [SKIP dest (st_size dsz fs dest)])
    else
      let info := if path_exists fs dest
                  then [INFO_exists dest (st_size dsz fs dest) exp] else [] in
      if dry then (Returned, fs, info ++ [DRY_RUN url dest exp])
      else
        match mkdir (pathlib.parent dest) fs with
        | None => (Raised OSError, fs, info)
        | Some fs1 =>
            match body net url with
            | None => (Raised URLError, fs1, info ++ [GET_file url])
            | Some data =>
                match write_file dest data fs1 with
                | None => (Raised OSError, fs1, info ++ [GET_file url])
                | Some fs2 =>
                    (Returned, fs2,
                     info ++ [GET_file url;
                       let written := st_size dsz fs2 dest in
                       match exp with
                       | Some e =>
                           if Z.eqb written e then DOWNLOADED url dest written
                           else WARN_size dest e written
                       | None => DOWNLOADED url dest written
                       end])
                end
            end
        end.
Proof.
  unfold download_file.
  destruct (path_exists fs dest); cbn [andb]; cbv zeta.
  - destruct exp as [e|]; [|done].
    destruct (Z.eqb (st_size dsz fs dest) e); [done|].
    destruct dry; [done|].
    destruct (mkdir _ fs) as [fs1|]; [|done].
    destruct (body net url) as [data|]; [|done].
    destruct (write_file dest data fs1) as [fs2|]; [|done].
    by destruct (Z.eqb (st_size dsz fs2 dest) e).
  - destruct dry; [done|].
    destruct (mkdir _ fs) as [fs1|]; [|done].
    destruct (body net url) as [data|]; [|done].
    destruct (write_file dest data fs1) as [fs2|]; [|done].
    destruct exp as [e|]; [|done].
    by destruct (Z.eqb (st_size dsz fs2 dest) e).
Qed.

Lemma not_in_info (dsz : Z) (fs : FS) (dest : Path) (exp : option Z) (e : Event) :
  In e (if path_exists fs dest
        then [INFO_exists dest (st_size dsz fs dest) exp] else []) ->
  e = INFO_exists dest (st_size dsz fs dest) exp.
Proof. destruct (path_exists fs dest); [|done]. by intros [<-|[]]. Qed.

(** C3. The decision table of [download_file], for every file system, mode
    and expected size.  Let [skip] say that the destination exists and the
    expected size is known and equal to its size.
    - [SKIP] (skipped-exists) is reported if and only if [skip] holds, and
      then nothing else is reported and the file system is left as it was.
    - Otherwise, outside dry-run mode, when the file system lets the parent
      directories be made and the destination be written, and the server
      delivers a body: the body is requested and stored at the destination,
      whether that is a new file or replaces an existing one (in which case
      an [INFO] line precedes the request); the call returns normally; and
      the report is [WARN_size] (size-mismatch-warning) when the expected
      size is known and differs from the number of bytes written,
      [DOWNLOADED] otherwise.
    - A [WARN_size] report always comes with a normal return and with the
      downloaded body left in place at the destination. *)
Theorem download_file_decision (net : Remote) (dsz : Z) (url : string)
    (dest : Path) (dry : bool) (exp : option Z) (fs fs' : FS) (r : Completion)
    (out : list Event) :
  download_file net dsz url dest dry exp fs = (r, fs', out) ->
  let skip := path_exists fs dest = true /\ exp = Some (st_size dsz fs dest) in
  ((exists n, In (SKIP dest n) out) <-> skip)
  /\ (skip -> r = Returned /\ fs' = fs /\ out = [SKIP dest (st_size dsz fs dest)])
  /\ (~ skip -> dry = false ->
      forall fs1 fs2 data,
        mkdir (pathlib.parent dest) fs = Some fs1 ->
        body net url = Some data ->
        write_file dest data fs1 = Some fs2 ->
        let written := Z.of_nat (length data) in
        r = Returned
        /\ fs' = <[dest := File data]> fs1
        /\ out = (if path_exists fs dest
                  then [INFO_exists dest (st_size dsz fs dest) exp] else [])
                 ++ [GET_file url;
                     match exp with
                     | Some e =>
                         if Z.eqb written e then DOWNLOADED url dest written
                         else WARN_size dest e written
                     | None => DOWNLOADED url dest written
                     end])
  /\ (forall e n, In (WARN_size dest e n) out ->
      r = Returned /\ dry = false /\ exp = Some e /\ n <> e
      /\ exists data, body net url = Some data
           /\ fs' !! dest = Some (File data) /\ n = Z.of_nat (length data)).
Proof.
  intros Hrun skip. rewrite download_file_unfold in Hrun.
  pose proof (up_to_date_spec dsz fs dest exp) as Hb. cbv zeta in Hb.
  fold skip in Hb.
  destruct (path_exists fs dest
            && match exp with
               | Some e => Z.eqb (st_size dsz fs dest) e
               | None => false
               end) eqn:Eb.
  { (* the destination is up to date *)
    assert skip as Hs by (by apply Hb).
    injection Hrun as <- <- <-.
    split; [split; [done | intros _; eexists; by left]|].
    split; [done|].
    split; [intros Hn; by destruct Hn|].
    intros e n [?|[]]. done. }
  (* the file is to be fetched *)
  assert (~ skip) as Hs by (rewrite <- Hb; congruence).
  cbv zeta in Hrun.
  set (info := if path_exists fs dest
               then [INFO_exists dest (st_size dsz fs dest) exp] else []) in *.
  assert (forall e, In e info -> e = INFO_exists dest (st_size dsz fs dest) exp)
    as Hinfo by apply not_in_info.
  assert (forall ev rest, In ev (info ++ rest) ->
            ev <> INFO_exists dest (st_size dsz fs dest) exp -> In ev rest)
    as Hrest.
  { intros ev rest Hin Hne. apply in_app_or in Hin as [Hin|Hin]; [|done].
    by apply Hinfo in Hin. }
  split.
  { split; [|done]. intros [n Hin]. exfalso.
    destruct dry; [|destruct (mkdir _ fs) as [fs1|];
      [destruct (body net url) as [data|];
        [destruct (write_file dest data fs1) as [fs2|]|]|]];
      injection Hrun as <- <- <-.
    - apply Hrest in Hin as [?|[]]; done.
    - apply Hrest in Hin as [?|[Hin|[]]]; [done| |done].
      destruct exp as [e|]; [|done].
      by destruct (Z.eqb (st_size dsz fs2 dest) e).
    - apply Hrest in Hin as [?|[]]; done.
    - apply Hrest in Hin as [?|[]]; done.
    - by apply Hinfo in Hin. }
  split; [done|].
  split.
  { intros _ -> fs1 fs2 data Hmk Hbody Hwr. cbv zeta.
    rewrite Hmk, Hbody, Hwr in Hrun.
    apply write_file_Some in Hwr as ->.
    rewrite st_size_written in Hrun.
    by injection Hrun as <- <- <-. }
  intros e n Hin.
  destruct dry; [|destruct (mkdir _ fs) as [fs1|];
    [destruct (body net url) as [data|];
      [destruct (write_file dest data fs1) as [fs2|] eqn:Hwr|]|]];
    injection Hrun as <- <- <-.
  - apply Hrest in Hin as [?|[]]; done.
  - apply Hrest in Hin as [?|[Hin|[]]]; [done| |done].
    apply write_file_Some in Hwr as ->.
    rewrite st_size_written in Hin.
    destruct exp as [e'|]; [|done].
    destruct (Z.eqb_spec (Z.of_nat (length data)) e') as [He|He]; [done|].
    injection Hin as <- <-.
    repeat split; try done. exists data.
    by rewrite lookup_insert_eq.
  - apply Hrest in Hin as [?|[]]; done.
  - apply Hrest in Hin as [?|[]]; done.
  - by apply Hinfo in Hin.
Qed.

(** The decision table at a download whose body has three bytes where five
    were expected: the warning is reported and the file is kept. *)
Lemma download_file_decision_witness :
  let dest := ["/"; "out"; "top.pdf"] in
  let fs' := <[dest := File three_bytes]> out_dir in
  download_file sized_site 4096 "https://h/images/top.pdf" dest false
    (Some 5%Z) out_dir
  = (Returned, fs', [GET_file "https://h/images/top.pdf"; WARN_size dest 5 3])
  /\ (Returned = Returned /\ false = false /\ Some 5%Z = Some 5%Z /\ 3%Z <> 5%Z
      /\ exists data, body sized_site "https://h/images/top.pdf" = Some data
           /\ fs' !! dest = Some (File data) /\ 3%Z = Z.of_nat (length data)).
Proof.
  cbv zeta.
  assert (download_file sized_site 4096 "https://h/images/top.pdf"
            ["/"; "out"; "top.pdf"] false (Some 5%Z) out_dir
          = (Returned, <[["/"; "out"; "top.pdf"] := File three_bytes]> out_dir,
             [GET_file "https://h/images/top.pdf";
              WARN_size ["/"; "out"; "top.pdf"] 5 3])) as H
    by (vm_compute; reflexivity).
  split; [exact H|].
  apply (proj2 (proj2 (proj2 (download_file_decision _ _ _ _ _ _ _ _ _ _ H))) 5%Z 3%Z).
  right. left. reflexivity.
Defined.

(** ** The crawl *)

Section CrawlProperties.

Context {U : UrlLib}.
Variable net : Remote.
Variable dsz : Z.

(** *** Events *)

Lemma queued_app (l1 l2 : list Event) : queued (l1 ++ l2) = queued l1 ++ queued l2.
Proof. apply omap_app. Qed.

Lemma fetched_app (l1 l2 : list Event) : fetched (l1 ++ l2) = fetched l1 ++ fetched l2.
Proof. apply omap_app. Qed.


Lemma traversal_app (l1 l2 : list Event) :
  traversal (l1 ++ l2) = traversal l1 ++ traversal l2.
Proof. apply List.filter_app. Qed.

Lemma traversal_cons_true (e : Event) (out : list Event) :
  is_traversal e = true -> traversal (e :: out) = e :: traversal out.
Proof. intros H. unfold traversal. cbn [List.filter]. by rewrite H. Qed.

Lemma pop_snoc (q : list string) (u : string) : pop (q ++ [u]) = Some (u, q).
Proof. unfold pop. by rewrite rev_unit, rev_involutive. Qed.

Lemma pop_Some (q rest : list string) (u : string) :
  pop q = Some (u, rest) -> q = rest ++ [u].
Proof.
  unfold pop. destruct (rev q) as [|x r] eqn:E; [done|].
  intros [= <- <-]. apply (f_equal (@rev string)) in E.
  rewrite rev_involutive in E. exact E.
Qed.

Lemma pop_None (q : list string) : pop q = None -> q = [].
Proof.
  unfold pop. destruct (rev q) as [|x r] eqn:E; [|done].
  intros _. apply (f_equal (@rev string)) in E.
  by rewrite rev_involutive in E.
Qed.

(** *** One link *)

Lemma process_link_resolve (base : string) (dest : Path) (dry : bool)
    (current href : string) (st : State) :
  process_link net dsz base dest dry current href st
  = match resolve_link base current href with
    | Ignore => (Returned, st, [])
    | Enqueue absolute =>
        (Returned, mkState (queue st ++ [absolute]) (visited st) (fs st),
         [QUEUE absolute])
    | Download absolute => dispatch_file net dsz base dest dry absolute st
    end.
Proof.
  unfold process_link, resolve_link, dispatch_file.
  destruct (should_skip_link href); [done|]. cbv zeta.
  destruct (negb (is_same_origin _ base) || negb (is_within_base_path _ base));
    [done|].
  destruct (String.eqb (classify_link href) "dir"); [done|].
  by destruct (String.eqb (classify_link href) "pdf").
Qed.

(** A link that is queued or downloaded has passed both scope tests. *)
Lemma resolve_link_in_scope (base current href absolute : string) :
  resolve_link base current href = Enqueue absolute
  \/ resolve_link base current href = Download absolute ->
  is_in_scope absolute base = true.
Proof.
  unfold resolve_link, is_in_scope.
  destruct (should_skip_link href); [by intros [|]|]. cbv zeta.
  destruct (is_same_origin _ base) eqn:E1; [|by intros [|]].
  destruct (is_within_base_path _ base) eqn:E2; [|by intros [|]].
  cbn [negb orb].
  destruct (String.eqb (classify_link href) "dir");
    [intros [[= <-]|]; [by rewrite E1, E2 | done]|].
  destruct (String.eqb (classify_link href) "pdf");
    [intros [|[= <-]]; [done | by rewrite E1, E2]|].
  by intros [|].
Qed.

Lemma download_file_reports (url : string) (dest : Path) (dry : bool)
    (exp : option Z) (fs0 fs' : FS) (r : Completion) (out : list Event) :
  download_file net dsz url dest dry exp fs0 = (r, fs', out) ->
  Forall (download_report url) out.
Proof.
  rewrite download_file_unfold. intros H.
  assert (Forall (download_report url)
            (if path_exists fs0 dest
             then [INFO_exists dest (st_size dsz fs0 dest) exp] else [])) as Hi.
  { destruct (path_exists fs0 dest); repeat constructor; done. }
  destruct (_ && _).
  { injection H as <- <- <-. repeat constructor; done. }
  cbv zeta in H. destruct dry.
  { injection H as <- <- <-. apply Forall_app. split; [done|].
    repeat constructor. by intros u [= <-]. }
  destruct (mkdir _ fs0) as [fs1|]; [|by injection H as <- <- <-].
  destruct (body net url) as [data|].
  2:{ injection H as <- <- <-. apply Forall_app. split; [done|].
      repeat constructor. by intros u [= <-]. }
  destruct (write_file dest data fs1) as [fs2|].
  2:{ injection H as <- <- <-. apply Forall_app. split; [done|].
      repeat constructor. by intros u [= <-]. }
  injection H as <- <- <-. apply Forall_app. split; [done|].
  constructor; [split; [done | by intros u [= <-]]|].
  constructor; [|done].
  destruct exp as [e|]; [destruct (Z.eqb _ e)|];
    (split; [done|]); by intros u [= <-].
Qed.

(** The probe and the [FILE] line come first; the rest is what
    [download_file] reports, followed by [WARN_download] when it raised
    [URLError].  Neither the queue nor the visited set changes. *)
Lemma dispatch_file_shape (base : string) (dest : Path) (dry : bool)
    (a : string) (st st' : State) (r : Completion) (out : list Event) :
  dispatch_file net dsz base dest dry a st = (r, st', out) ->
  queue st' = queue st /\ visited st' = visited st
  /\ (r = Returned \/ r = Raised OSError)
  /\ exists out',
       out = snd (get_remote_file_size net a)
             ++ [FILE a (fst (get_remote_file_size net a))] ++ out'
       /\ Forall (download_report a) out'.
Proof.
  unfold dispatch_file.
  destruct (get_remote_file_size net a) as [sz probe]. cbn [fst snd].
  destruct (download_file _ _ _ _ _ _ _) as [[r0 fs'] out0] eqn:Hd.
  pose proof (download_file_reports _ _ _ _ _ _ _ _ Hd) as Hrep.
  assert (r0 = Returned \/ r0 = Raised URLError \/ r0 = Raised OSError) as Hr.
  { rewrite download_file_unfold in Hd.
    destruct (_ && _); [injection Hd as <- _ _; by left|].
    cbv zeta in Hd. destruct dry; [injection Hd as <- _ _; by left|].
    destruct (mkdir _ _); [|injection Hd as <- _ _; by right; right].
    destruct (body net a); [|injection Hd as <- _ _; by right; left].
    destruct (write_file _ _ _); injection Hd as <- _ _; [by left | by right; right]. }
  destruct Hr as [->|[->| ->]]; intros [= <- <- <-]; cbn [queue visited];
    (split; [done|]); (split; [done|]); (split; [by auto|]).
  - exists out0. by rewrite <- app_assoc.
  - exists (out0 ++ [WARN_download a]). rewrite <- app_assoc. split; [done|].
    apply Forall_app. split; [done|]. repeat constructor. by intros u [= <-].
  - exists out0. by rewrite <- app_assoc.
Qed.

Lemma traversal_reports (a : string) (out : list Event) :
  Forall (download_report a) out -> traversal out = [].
Proof.
  induction 1 as [|e out [He _] _ IH]; [done|].
  unfold traversal in *. cbn [List.filter]. by rewrite He.
Qed.

Lemma queued_not_traversal (out : list Event) : queued out = queued (traversal out).
Proof.
  induction out as [|e out IH]; [done|].
  unfold traversal, queued in *. destruct e; cbn; by rewrite ?IH.
Qed.

Lemma fetched_not_traversal (out : list Event) : fetched out = fetched (traversal out).
Proof.
  induction out as [|e out IH]; [done|].
  unfold traversal, fetched in *. destruct e; cbn; by rewrite ?IH.
Qed.

Lemma files_not_traversal (out : list Event) : files out = files (traversal out).
Proof.
  induction out as [|e out IH]; [done|].
  unfold traversal, files in *. destruct e; cbn; by rewrite ?IH.
Qed.

Lemma traversal_probe (a : string) :
  traversal (snd (get_remote_file_size net a)) = snd (get_remote_file_size net a).
Proof. unfold get_remote_file_size. by destruct (head net a) as [[n|]|]. Qed.

(** One link: the state changes only by the URL appended to the queue, and
    the traversal events are those of [link_trace]. *)
Lemma process_link_shape (base : string) (dest : Path) (dry : bool)
    (current href : string) (st st' : State) (r : Completion) (out : list Event) :
  process_link net dsz base dest dry current href st = (r, st', out) ->
  visited st' = visited st
  /\ queue st' = queue st ++ queued out
  /\ traversal out = link_trace net base current href
  /\ (r = Returned \/ r = Raised OSError).
Proof.
  rewrite process_link_resolve. unfold link_trace.
  destruct (resolve_link base current href) as [|a|a].
  - intros [= <- <- <-]. by rewrite app_nil_r; auto.
  - intros [= <- <- <-]. auto.
  - intros H. apply dispatch_file_shape in H as (Hq & Hv & Hr & out' & -> & Hrep).
    rewrite !traversal_app, (traversal_reports _ _ Hrep), traversal_probe.
    rewrite queued_not_traversal, !traversal_app, (traversal_reports _ _ Hrep).
    rewrite traversal_probe.
    repeat split; try done.
    rewrite Hq. unfold get_remote_file_size.
    destruct (head net a) as [[n|]|]; by rewrite app_nil_r.
Qed.

Lemma link_trace_queued_length (base current href : string) :
  length (queued (link_trace net base current href)) <= 1.
Proof.
  unfold link_trace. destruct (resolve_link base current href) as [|a|a]; cbn; try lia.
  unfold get_remote_file_size. destruct (head net a) as [[n|]|]; cbn; lia.
Qed.

Lemma link_trace_fetched (base current href : string) :
  fetched (link_trace net base current href) = [].
Proof.
  unfold link_trace. destruct (resolve_link base current href) as [|a|a]; try done.
  unfold get_remote_file_size. by destruct (head net a) as [[n|]|].
Qed.

(** *** The links of one page *)

Lemma for_links_shape (base : string) (dest : Path) (dry : bool)
    (current : string) (hrefs : list string) (st st' : State) (r : Completion)
    (out : list Event) :
  for_links net dsz base dest dry current hrefs st = (r, st', out) ->
  visited st' = visited st
  /\ queue st' = queue st ++ queued out
  /\ (r = Returned \/ r = Raised OSError)
  /\ exists rest, page_trace net base current hrefs = traversal out ++ rest
                  /\ (r = Returned -> rest = []).
Proof.
  revert st st' r out.
  induction hrefs as [|href hrefs IH]; intros st st' r out; cbn [for_links].
  - intros [= <- <- <-]. rewrite app_nil_r.
    repeat split; auto. by exists [].
  - destruct (process_link _ _ _ _ _ _ _ _) as [[r1 st1] out1] eqn:H1.
    apply process_link_shape in H1 as (Hv1 & Hq1 & Ht1 & Hr1).
    unfold page_trace. cbn [flat_map]. fold (page_trace net base current hrefs).
    destruct Hr1 as [-> | ->].
    + destruct (for_links _ _ _ _ _ _ _ _) as [[r2 st2] out2] eqn:H2.
      apply IH in H2 as (Hv2 & Hq2 & Hr2 & rest & Hrest & Hfin).
      intros [= <- <- <-].
      rewrite Hv2, Hv1, Hq2, Hq1, queued_app, traversal_app, <- app_assoc.
      repeat split; auto.
      exists rest. by rewrite Hrest, Ht1, <- app_assoc.
    + intros [= <- <- <-]. repeat split; auto.
      exists (page_trace net base current hrefs). by rewrite Ht1.
Qed.

Lemma page_trace_queued_length (base current : string) (hrefs : list string) :
  length (queued (page_trace net base current hrefs)) <= length hrefs.
Proof.
  induction hrefs as [|href hrefs IH]; [done|].
  unfold page_trace. cbn [flat_map length].
  rewrite queued_app, length_app.
  pose proof (link_trace_queued_length base current href).
  fold (page_trace net base current hrefs). lia.
Qed.

Lemma page_trace_fetched (base current : string) (hrefs : list string) :
  fetched (page_trace net base current hrefs) = [].
Proof.
  induction hrefs as [|href hrefs IH]; [done|].
  unfold page_trace. cbn [flat_map].
  by rewrite fetched_app, link_trace_fetched.
Qed.

Lemma for_links_queue_length (base : string) (dest : Path) (dry : bool)
    (current : string) (hrefs : list string) (st st' : State) (r : Completion)
    (out : list Event) :
  for_links net dsz base dest dry current hrefs st = (r, st', out) ->
  length (queue st') <= length (queue st) + length hrefs /\ fetched out = [].
Proof.
  intros H. apply for_links_shape in H as (_ & -> & _ & rest & Hrest & _).
  pose proof (page_trace_queued_length base current hrefs) as Hlen.
  pose proof (page_trace_fetched base current hrefs) as Hf.
  rewrite Hrest, queued_app, length_app in Hlen.
  rewrite Hrest, fetched_app in Hf. apply app_eq_nil in Hf as [Hf _].
  rewrite length_app, queued_not_traversal, fetched_not_traversal.
  split; [lia | done].
Qed.

(** *** One iteration and the loop *)

Lemma visit_seen (base : string) (dest : Path) (dry : bool) (current : string)
    (st : State) :
  normalize_directory_url current ∈ visited st ->
  visit net dsz base dest dry current st = (Returned, st, []).
Proof. intros H. unfold visit. by rewrite decide_True. Qed.

Lemma visit_new (base : string) (dest : Path) (dry : bool) (current : string)
    (st : State) :
  normalize_directory_url current ∉ visited st ->
  visit net dsz base dest dry current st
  = let normalized := normalize_directory_url current in
    let st1 := mkState (queue st) (visited st ∪ {[normalized]}) (fs st) in
    match fetch_links net current with
    | None =>
        (Returned, st1,
         [CRAWL normalized; GET_listing current; WARN_fetch current])
    | Some hrefs =>
        let '(r, st', out) := for_links net dsz base dest dry current hrefs st1 in
        (r, st', [CRAWL normalized; GET_listing current] ++ out)
    end.
Proof. intros H. unfold visit. by rewrite decide_False. Qed.

Lemma while_queue_empty (fuel : nat) (base : string) (dest : Path) (dry : bool)
    (st : State) :
  queue st = [] -> while_queue net dsz fuel base dest dry st = (Finished, st, []).
Proof. intros H. destruct fuel; cbn [while_queue]; by rewrite H. Qed.

Lemma while_queue_step (fuel : nat) (base : string) (dest : Path) (dry : bool)
    (st : State) (current : string) (rest : list string) :
  queue st = rest ++ [current] ->
  while_queue net dsz (S fuel) base dest dry st
  = match visit net dsz base dest dry current
            (mkState rest (visited st) (fs st)) with
    | (Returned, st1, out1) =>
        let '(r, st2, out2) := while_queue net dsz fuel base dest dry st1 in
        (r, st2, out1 ++ out2)
    | (Raised e, st1, out1) => (Aborted e, st1, out1)
    end.
Proof. intros H. cbn [while_queue]. by rewrite H, pop_snoc. Qed.

Lemma queue_cases (q : list string) :
  q = [] \/ exists rest current, q = rest ++ [current].
Proof.
  destruct (pop q) as [[current rest]|] eqn:E.
  - right. exists rest, current. by apply pop_Some.
  - left. by apply pop_None.
Qed.

(** The loop ends with an empty queue, and runs out of fuel only with work
    left. *)
Lemma while_queue_status (fuel : nat) (base : string) (dest : Path) (dry : bool)
    (st st' : State) (r : Status) (out : list Event) :
  while_queue net dsz fuel base dest dry st = (r, st', out) ->
  (r = Finished -> queue st' = []) /\ (r = OutOfFuel -> queue st' <> []).
Proof.
  revert st st' r out. induction fuel as [|fuel IH]; intros st st' r out.
  - cbn [while_queue]. destruct (pop (queue st)) as [[c q]|] eqn:E;
      intros [= <- <- <-].
    + split; [done|]. intros _ Hq. by rewrite Hq in E.
    + split; [|done]. intros _. by apply pop_None.
  - destruct (queue_cases (queue st)) as [Hq|(rest & current & Hq)].
    { rewrite while_queue_empty by done. by intros [= <- <- <-]. }
    rewrite (while_queue_step _ _ _ _ _ _ _ Hq).
    destruct (visit _ _ _ _ _ _ _) as [[[|e] st1] out1];
      [|by intros [= <- <- <-]].
    destruct (while_queue _ _ _ _ _ _ _) as [[r2 st2] out2] eqn:H2.
    intros [= <- <- <-]. by eapply IH.
Qed.

(** *** Scope containment *)

Lemma in_queued (out : list Event) (u : string) :
  In u (queued out) <-> In (QUEUE u) out.
Proof.
  unfold queued. rewrite <- !list_elem_of_In, list_elem_of_omap. split.
  - intros (e & He & Hu). by destruct e; simplify_eq.
  - intros H. by exists (QUEUE u).
Qed.

Lemma in_fetched (out : list Event) (u : string) :
  In u (fetched out) <-> In (GET_listing u) out.
Proof.
  unfold fetched. rewrite <- !list_elem_of_In, list_elem_of_omap. split.
  - intros (e & He & Hu). by destruct e; simplify_eq.
  - intros H. by exists (GET_listing u).
Qed.


Lemma process_link_scoped (base : string) (dest : Path) (dry : bool)
    (current href : string) (st st' : State) (r : Completion) (out : list Event) :
  process_link net dsz base dest dry current href st = (r, st', out) ->
  Forall (scoped base) out.
Proof.
  rewrite process_link_resolve.
  pose proof (resolve_link_in_scope base current href) as Hsc.
  destruct (resolve_link base current href) as [|a|a].
  - by intros [= <- <- <-].
  - intros [= <- <- <-]. repeat constructor. intros u [= <-]. apply Hsc. by left.
  - intros H. apply dispatch_file_shape in H as (_ & _ & _ & out' & -> & Hrep).
    assert (is_in_scope a base = true) as Ha by (apply Hsc; by right).
    apply Forall_app. split.
    + unfold get_remote_file_size. destruct (head net a) as [[n|]|];
        repeat constructor; by intros u [= <-].
    + constructor; [by intros u [= <-]|].
      eapply Forall_impl; [exact Hrep|].
      intros e [_ He] u Hu. by rewrite (He u Hu).
Qed.

Lemma for_links_scoped (base : string) (dest : Path) (dry : bool)
    (current : string) (hrefs : list string) (st st' : State) (r : Completion)
    (out : list Event) :
  for_links net dsz base dest dry current hrefs st = (r, st', out) ->
  Forall (scoped base) out.
Proof.
  revert st st' r out.
  induction hrefs as [|href hrefs IH]; intros st st' r out; cbn [for_links].
  - by intros [= <- <- <-].
  - destruct (process_link _ _ _ _ _ _ _ _) as [[r1 st1] out1] eqn:H1.
    apply process_link_scoped in H1.
    destruct r1.
    + destruct (for_links _ _ _ _ _ _ _ _) as [[r2 st2] out2] eqn:H2.
      apply IH in H2. intros [= <- <- <-]. by apply Forall_app.
    + by intros [= <- <- <-].
Qed.

Lemma visit_scoped (base : string) (dest : Path) (dry : bool) (current : string)
    (st st' : State) (r : Completion) (out : list Event) :
  visit net dsz base dest dry current st = (r, st', out) ->
  Forall (scoped base) out
  /\ queue st' = queue st ++ queued out
  /\ (forall u, In u (fetched out) -> u = current).
Proof.
  destruct (decide (normalize_directory_url current ∈ visited st)) as [Hin|Hin].
  - rewrite visit_seen by done. intros [= <- <- <-].
    by rewrite app_nil_r.
  - rewrite visit_new by done. cbv zeta.
    destruct (fetch_links net current) as [hrefs|].
    + destruct (for_links _ _ _ _ _ _ _ _) as [[r1 st1] out1] eqn:H1.
      pose proof (for_links_scoped _ _ _ _ _ _ _ _ _ H1) as Hsc.
      pose proof (for_links_queue_length _ _ _ _ _ _ _ _ _ H1) as [_ Hf].
      apply for_links_shape in H1 as (_ & Hq & _).
      intros [= <- <- <-]. split; [|split].
      * repeat constructor; done.
      * by rewrite Hq.
      * intros u Hu. apply in_fetched in Hu as [?|[[= <-]|Hu]]; [done|done|].
        apply in_fetched in Hu. by rewrite Hf in Hu.
    + intros [= <- <- <-]. split; [|split].
      * repeat constructor; done.
      * by rewrite app_nil_r.
      * intros u Hu. by apply in_fetched in Hu as [?|[[= <-]|[?|[]]]].
Qed.

Lemma while_queue_scoped (fuel : nat) (base : string) (dest : Path) (dry : bool)
    (st st' : State) (r : Status) (out : list Event) :
  while_queue net dsz fuel base dest dry st = (r, st', out) ->
  Forall (scoped base) out
  /\ (forall u, In u (queue st') -> In u (queue st) \/ In u (queued out))
  /\ (forall u, In u (fetched out) -> In u (queue st) \/ In u (queued out)).
Proof.
  revert st st' r out. induction fuel as [|fuel IH]; intros st st' r out.
  - cbn [while_queue]. destruct (pop (queue st)) as [[c q]|];
      intros [= <- <- <-]; auto.
  - destruct (queue_cases (queue st)) as [Hq|(rest & current & Hq)].
    { rewrite while_queue_empty by done. intros [= <- <- <-]. auto. }
    rewrite (while_queue_step _ _ _ _ _ _ _ Hq).
    destruct (visit _ _ _ _ _ _ _) as [[r1 st1] out1] eqn:H1.
    apply visit_scoped in H1 as (Hsc1 & Hq1 & Hf1). cbn [queue] in Hq1.
    assert (forall u, In u (queue st1) -> In u (queue st) \/ In u (queued out1))
      as Hq1'.
    { intros u. rewrite Hq1, Hq, !in_app_iff. tauto. }
    assert (forall u, In u (fetched out1) -> In u (queue st)) as Hf1'.
    { intros u Hu. rewrite (Hf1 u Hu), Hq, in_app_iff. right. by left. }
    destruct r1.
    + destruct (while_queue _ _ _ _ _ _ _) as [[r2 st2] out2] eqn:H2.
      apply IH in H2 as (Hsc2 & Hq2 & Hf2).
      intros [= <- <- <-]. split; [by apply Forall_app|].
      split; intros u Hu.
      * rewrite queued_app, in_app_iff.
        destruct (Hq2 u Hu) as [Hu'|Hu']; [|tauto].
        destruct (Hq1' u Hu'); tauto.
      * rewrite queued_app, in_app_iff.
        rewrite fetched_app, in_app_iff in Hu.
        destruct Hu as [Hu|Hu]; [left; by apply Hf1'|].
        destruct (Hf2 u Hu) as [Hu'|Hu']; [|tauto].
        destruct (Hq1' u Hu'); tauto.
    + intros [= <- <- <-]. split; [done|]. split; intros u Hu; [auto|].
      left. by apply Hf1'.
Qed.

(** C1. In a crawl rooted at [base_url], whose root is
    [root = normalize_directory_url base_url], run for any number of
    iterations and in either mode:
    - every URL that an event names as put on the queue ([QUEUE]) or as
      handed to the size probe and to [download_file] ([HEAD_file], [FILE],
      [GET_file], [DRY_RUN], [DOWNLOADED], [WARN_download], [INFO_size])
      satisfies [is_in_scope url root];
    - every URL on the queue, and every URL whose listing is fetched, is the
      root itself or satisfies [is_in_scope url root];
    - a link whose resolved URL fails [is_in_scope] is dropped: the loop
      body returns with the state as it was and without any event;
    - [is_in_scope url root] says that scheme and network location of [url]
      are those of [root] and that the path of [url] starts with the path
      of [root], made to end with a slash. *)
Theorem crawl_scope_containment (fuel : nat) (base_url : string) (dest : Path)
    (dry : bool) (fs0 : FS) (status : Status) (st : State) (out : list Event) :
  crawl net dsz fuel base_url dest dry fs0 = (status, st, out) ->
  let root := normalize_directory_url base_url in
  (forall e u, In e out -> dispatched_url e = Some u -> is_in_scope u root = true)
  /\ (forall u, In u (queue st) -> u = root \/ is_in_scope u root = true)
  /\ (forall u, In u (fetched out) -> u = root \/ is_in_scope u root = true)
  /\ (forall current href st0,
        is_in_scope (fst (urldefrag (urljoin current href))) root = false ->
        process_link net dsz root dest dry current href st0 = (Returned, st0, []))
  /\ (forall u, is_in_scope u root = true <->
        scheme (urlparse u) = scheme (urlparse root)
        /\ netloc (urlparse u) = netloc (urlparse root)
        /\ Py.startswith (path (urlparse u))
             (if Py.endswith (path (urlparse root)) "/" then path (urlparse root)
              else path (urlparse root) +:+ "/") = true).
Proof.
  intros H. cbv zeta. unfold crawl in H.
  set (root := normalize_directory_url base_url) in *.
  apply while_queue_scoped in H as (Hsc & Hq & Hf). cbn [queue] in Hq, Hf.
  rewrite List.Forall_forall in Hsc.
  assert (forall u, In u (queued out) -> is_in_scope u root = true) as Hqd.
  { intros u Hu. apply in_queued in Hu. by apply (Hsc _ Hu). }
  split; [intros e u He; by apply Hsc|].
  split; [intros u Hu; destruct (Hq u Hu) as [[<-|[]]|]; auto|].
  split; [intros u Hu; destruct (Hf u Hu) as [[<-|[]]|]; auto|].
  split.
  { intros current href st0 Hout. rewrite process_link_resolve.
    pose proof (resolve_link_in_scope root current href) as Hsc'.
    unfold resolve_link in *. destruct (should_skip_link href); [done|].
    cbv zeta in *. unfold is_in_scope in Hout.
    destruct (is_same_origin _ root); [|done].
    destruct (is_within_base_path _ root); [|done]. done. }
  intros u. unfold is_in_scope, is_same_origin, is_within_base_path.
  rewrite !andb_true_iff, !String.eqb_eq.
  destruct (Py.endswith (path (urlparse root)) "/"); cbn [negb]; tauto.
Qed.

(** *** Termination, and one fetch per directory *)

Lemma visit_new_shape (base : string) (dest : Path) (dry : bool)
    (current : string) (st st' : State) (r : Completion) (out : list Event) :
  normalize_directory_url current ∉ visited st ->
  visit net dsz base dest dry current st = (r, st', out) ->
  visited st' = visited st ∪ {[normalize_directory_url current]}
  /\ fetched out = [current]
  /\ (exists out', out = CRAWL (normalize_directory_url current)
                        :: GET_listing current :: out')
  /\ length (queue st') <= length (queue st) + link_count net current
  /\ (fetch_links net current = None -> r = Returned).
Proof.
  intros Hnew. rewrite visit_new by done. cbv zeta. unfold link_count.
  destruct (fetch_links net current) as [hrefs|].
  - destruct (for_links _ _ _ _ _ _ _ _) as [[r1 st1] out1] eqn:H1.
    pose proof (for_links_queue_length _ _ _ _ _ _ _ _ _ H1) as [Hlen Hf].
    apply for_links_shape in H1 as (Hv & _).
    intros [= <- <- <-]. cbn [queue visited] in *.
    repeat split; try done.
    + cbn [app]. unfold fetched in *. cbn. by rewrite Hf.
    + by eexists.
  - intros [= <- <- <-]. cbn [queue visited]. repeat split; try done.
    + by eexists.
    + lia.
Qed.

Lemma while_queue_fetch_once (fuel : nat) (base : string) (dest : Path)
    (dry : bool) (st st' : State) (r : Status) (out : list Event) :
  while_queue net dsz fuel base dest dry st = (r, st', out) ->
  visited st ⊆ visited st'
  /\ List.NoDup (map normalize_directory_url (fetched out))
  /\ (forall u, In u (fetched out) ->
        (normalize_directory_url u ∉ visited st)
        /\ (normalize_directory_url u ∈ visited st')).
Proof.
  revert st st' r out. induction fuel as [|fuel IH]; intros st st' r out.
  - cbn [while_queue]. destruct (pop (queue st)) as [[c q]|];
      intros [= <- <- <-]; (split; [done|]); (split; [constructor|done]).
  - destruct (queue_cases (queue st)) as [Hq|(rest & current & Hq)].
    { rewrite while_queue_empty by done. intros [= <- <- <-].
      split; [done|]. split; [constructor|done]. }
    rewrite (while_queue_step _ _ _ _ _ _ _ Hq).
    set (st1 := mkState rest (visited st) (fs st)).
    destruct (decide (normalize_directory_url current ∈ visited st)) as [Hin|Hin].
    + rewrite visit_seen by done.
      destruct (while_queue _ _ _ _ _ _ _) as [[r2 st2] out2] eqn:H2.
      apply IH in H2. intros [= <- <- <-]. exact H2.
    + destruct (visit _ _ _ _ _ _ _) as [[r1 st2] out1] eqn:H1.
      apply visit_new_shape in H1 as (Hv1 & Hf1 & _); [|done].
      cbn [visited st1] in Hv1.
      destruct r1.
      * destruct (while_queue _ _ _ _ _ _ _) as [[r3 st3] out3] eqn:H3.
        apply IH in H3 as (Hsub & Hnd & Hvis).
        intros [= <- <- <-]. rewrite fetched_app, Hf1. cbn [app map].
        split; [set_solver|]. split.
        -- constructor; [|done]. rewrite in_map_iff.
           intros (u & Hu & Hin'). apply Hvis in Hin' as [Hn _].
           apply Hn. rewrite Hv1, Hu. set_solver.
        -- intros u [<-|Hu]; [split; [done|set_solver]|].
           apply Hvis in Hu as [Hn Hy]. split; [|done]. set_solver.
      * intros [= <- <- <-]. rewrite Hf1. cbn [map].
        split; [set_solver|]. split.
        -- constructor; [by intros []|constructor].
        -- intros u [<-|[]]. split; [done|set_solver].
Qed.

Lemma list_sum_cons (a : nat) (l : list nat) : list_sum (a :: l) = a + list_sum l.
Proof. reflexivity. Qed.

Lemma pending_mono (pages : list string) (V V' : gset string) :
  V ⊆ V' ->
  list_sum (map (fun p => if decide (normalize_directory_url p ∈ V')
                          then 0 else link_count net p) pages)
  <= list_sum (map (fun p => if decide (normalize_directory_url p ∈ V)
                             then 0 else link_count net p) pages).
Proof.
  intros Hsub. induction pages as [|p pages IH]; [done|].
  cbn [map]. rewrite !list_sum_cons.
  destruct (decide (normalize_directory_url p ∈ V')) as [|Hn']; [lia|].
  rewrite decide_False by set_solver. lia.
Qed.

Lemma pending_visit (pages : list string) (V : gset string) (c : string) :
  In c pages -> normalize_directory_url c ∉ V ->
  list_sum (map (fun p => if decide (normalize_directory_url p
                                       ∈ V ∪ {[normalize_directory_url c]})
                          then 0 else link_count net p) pages)
  + link_count net c
  <= list_sum (map (fun p => if decide (normalize_directory_url p ∈ V)
                             then 0 else link_count net p) pages).
Proof.
  intros Hin Hnew. induction pages as [|p pages IH]; [done|].
  cbn [map]. rewrite !list_sum_cons.
  destruct Hin as [->|Hin].
  - rewrite decide_True by set_solver. rewrite decide_False by done.
    pose proof (pending_mono pages V (V ∪ {[normalize_directory_url c]})) as Hm.
    cbn [plus]. specialize (Hm ltac:(set_solver)). lia.
  - specialize (IH Hin).
    destruct (decide (normalize_directory_url p ∈ V)) as [Hp|Hp].
    + rewrite decide_True by set_solver. lia.
    + destruct (decide (_ ∈ _)); lia.
Qed.

Lemma while_queue_terminates (pages : list string) (base : string) (dest : Path)
    (dry : bool) :
  (forall u, listing net u <> None -> In u pages) ->
  forall (fuel : nat) (st st' : State) (r : Status) (out : list Event),
    work_left net pages st <= fuel ->
    while_queue net dsz fuel base dest dry st = (r, st', out) ->
    r <> OutOfFuel.
Proof.
  intros Hpages. induction fuel as [|fuel IH]; intros st st' r out Hwork.
  - unfold work_left in Hwork.
    destruct (queue st) as [|a q] eqn:Hq; [|cbn [length] in Hwork; lia].
    rewrite while_queue_empty by done. by intros [= <- _ _].
  - destruct (queue_cases (queue st)) as [Hq|(rest & current & Hq)].
    { rewrite while_queue_empty by done. by intros [= <- _ _]. }
    rewrite (while_queue_step _ _ _ _ _ _ _ Hq).
    unfold work_left in Hwork. rewrite Hq, length_app in Hwork.
    cbn [length] in Hwork.
    set (st1 := mkState rest (visited st) (fs st)).
    destruct (decide (normalize_directory_url current ∈ visited st)) as [Hin|Hin].
    + rewrite visit_seen by done.
      destruct (while_queue _ _ _ _ _ _ _) as [[r2 st2] out2] eqn:H2.
      apply IH in H2; [by intros [= <- _ _]|].
      unfold work_left, st1. cbn [queue visited]. lia.
    + destruct (visit _ _ _ _ _ _ _) as [[r1 st2] out1] eqn:H1.
      apply visit_new_shape in H1 as (Hv1 & _ & _ & Hlen & Hnone); [|done].
      cbn [visited queue st1] in Hv1, Hlen.
      destruct r1; [|by intros [= <- _ _]].
      destruct (while_queue _ _ _ _ _ _ _) as [[r3 st3] out3] eqn:H3.
      apply IH in H3; [by intros [= <- _ _]|].
      unfold work_left. rewrite Hv1.
      destruct (fetch_links net current) as [hrefs|] eqn:Hfetch.
      * assert (In current pages) as Hc.
        { apply Hpages. unfold fetch_links in Hfetch.
          by destruct (listing net current). }
        pose proof (pending_visit pages (visited st) current Hc Hin). lia.
      * assert (link_count net current = 0) as Hz
          by (unfold link_count; by rewrite Hfetch).
        pose proof (pending_mono pages (visited st)
                      (visited st ∪ {[normalize_directory_url current]})
                      ltac:(set_solver)). lia.
Qed.

(** On a site with finitely many listing pages, [crawl_bound] iterations
    are enough, and no directory is fetched twice. *)
Lemma crawl_terminates_on_finite_site (pages : list string) (fuel : nat) (base_url : string)
    (dest : Path) (dry : bool) (fs0 : FS) (status : Status) (st : State)
    (out : list Event) :
  (forall u, listing net u <> None -> In u pages) ->
  crawl_bound net pages <= fuel ->
  crawl net dsz fuel base_url dest dry fs0 = (status, st, out) ->
  status <> OutOfFuel
  /\ (status = Finished -> queue st = [])
  /\ List.NoDup (map normalize_directory_url (fetched out))
  /\ (forall u, In u (fetched out) -> normalize_directory_url u ∈ visited st).
Proof.
  intros Hpages Hfuel Hrun. unfold crawl in Hrun.
  split; [|split].
  - eapply while_queue_terminates; [exact Hpages| |exact Hrun].
    unfold work_left, crawl_bound in *. cbn [queue visited length].
    erewrite map_ext; [exact Hfuel|].
    intros p. cbv beta. by rewrite decide_False by set_solver.
  - intros ->. by apply while_queue_status in Hrun as [H _]; apply H.
  - apply while_queue_fetch_once in Hrun as (_ & Hnd & Hvis).
    split; [done|]. intros u Hu. by apply Hvis.
Qed.

(** *** The queue is a stack *)

Lemma find_hd_filter {A : Type} (f : A -> bool) (l : list A) :
  List.find f l = hd_error (List.filter f l).
Proof.
  induction l as [|a l IH]; [done|]. cbn [List.find List.filter].
  by destruct (f a).
Qed.

Lemma last_unvisited_filter (V : gset string) (l l' : list string) :
  List.filter (unvisited V) l = List.filter (unvisited V) l' ->
  last_unvisited V l = last_unvisited V l'.
Proof.
  intros H. unfold last_unvisited.
  by rewrite !find_hd_filter, !List.filter_rev, H.
Qed.

Lemma unvisited_union (V : gset string) (n u : string) :
  unvisited (V ∪ {[n]}) u
  = unvisited V u && negb (String.eqb (normalize_directory_url u) n).
Proof.
  unfold unvisited.
  destruct (String.eqb_spec (normalize_directory_url u) n) as [->|Hne].
  - rewrite andb_false_r. apply bool_decide_eq_false. set_solver.
  - rewrite andb_true_r. apply bool_decide_ext. set_solver.
Qed.

Lemma filter_unvisited_union (V : gset string) (n : string) (l : list string) :
  List.filter (unvisited (V ∪ {[n]})) l
  = List.filter (fun u => negb (String.eqb (normalize_directory_url u) n))
      (List.filter (unvisited V) l).
Proof.
  induction l as [|a l IH]; [done|]. cbn [List.filter].
  rewrite unvisited_union, IH.
  destruct (unvisited V a); cbn [andb List.filter]; [|done].
  by destruct (negb _).
Qed.

(** The enqueued URLs not yet visited are the unvisited URLs of the queue,
    in the same order. *)
Lemma while_queue_pending (fuel : nat) (base : string) (dest : Path) (dry : bool)
    (hist : list string) (st st' : State) (r : Status) (out : list Event) :
  List.filter (unvisited (visited st)) hist
  = List.filter (unvisited (visited st)) (queue st) ->
  while_queue net dsz fuel base dest dry st = (r, st', out) ->
  List.filter (unvisited (visited st')) (hist ++ queued out)
  = List.filter (unvisited (visited st')) (queue st').
Proof.
  revert hist st st' r out.
  induction fuel as [|fuel IH]; intros hist st st' r out Hinv.
  - cbn [while_queue]. destruct (pop (queue st)) as [[c q]|];
      intros [= <- <- <-]; by rewrite app_nil_r.
  - destruct (queue_cases (queue st)) as [Hq|(rest & current & Hq)].
    { rewrite while_queue_empty by done. intros [= <- <- <-].
      by rewrite app_nil_r. }
    rewrite (while_queue_step _ _ _ _ _ _ _ Hq).
    rewrite Hq, List.filter_app in Hinv. cbn [List.filter] in Hinv.
    set (st1 := mkState rest (visited st) (fs st)).
    destruct (decide (normalize_directory_url current ∈ visited st)) as [Hin|Hin].
    + rewrite visit_seen by done.
      assert (unvisited (visited st) current = false) as Hc
        by (apply bool_decide_eq_false; tauto).
      rewrite Hc, app_nil_r in Hinv.
      destruct (while_queue _ _ _ _ _ _ _) as [[r2 st2] out2] eqn:H2.
      apply (IH hist) in H2; [|done]. by intros [= <- <- <-].
    + destruct (visit _ _ _ _ _ _ _) as [[r1 st2] out1] eqn:H1.
      pose proof (visit_scoped _ _ _ _ _ _ _ _ H1) as (_ & Hq1 & _).
      apply visit_new_shape in H1 as (Hv1 & _); [|done].
      cbn [visited queue st1] in Hv1, Hq1.
      assert (List.filter (unvisited (visited st2)) (hist ++ queued out1)
              = List.filter (unvisited (visited st2)) (queue st2)) as Hinv2.
      { rewrite Hq1, !List.filter_app. f_equal.
        rewrite Hv1, !filter_unvisited_union, Hinv, List.filter_app.
        assert (unvisited (visited st) current = true) as ->
          by (by apply bool_decide_eq_true).
        cbn [List.filter]. rewrite String.eqb_refl. cbn [negb].
        by rewrite app_nil_r. }
      destruct r1.
      * destruct (while_queue _ _ _ _ _ _ _) as [[r3 st3] out3] eqn:H3.
        apply (IH (hist ++ queued out1)) in H3; [|done].
        intros [= <- <- <-]. by rewrite queued_app, app_assoc.
      * by intros [= <- <- <-].
Qed.

(** With enough fuel to discard the visited URLs at the tail of the queue,
    the next thing the loop does is fetch the last unvisited URL. *)
Lemma while_queue_next (base : string) (dest : Path) (dry : bool) (u : string)
    (rq : list string) :
  forall (m : nat) (st : State),
    queue st = rev rq ->
    List.find (unvisited (visited st)) rq = Some u ->
    length rq <= m ->
    exists r st' rest,
      while_queue net dsz m base dest dry st
      = (r, st', CRAWL (normalize_directory_url u) :: GET_listing u :: rest).
Proof.
  induction rq as [|x rq IH]; intros m st Hq Hfind Hm; [done|].
  cbn [rev] in Hq. cbn [List.find] in Hfind. cbn [length] in Hm.
  destruct m as [|m]; [lia|].
  rewrite (while_queue_step _ _ _ _ _ _ _ Hq).
  destruct (unvisited (visited st) x) eqn:Hx.
  - injection Hfind as ->. apply bool_decide_eq_true in Hx.
    destruct (visit _ _ _ _ _ _ _) as [[r1 st1] out1] eqn:H1.
    apply visit_new_shape in H1 as (_ & _ & (out' & ->) & _); [|done].
    destruct r1.
    + destruct (while_queue _ _ _ _ _ _ _) as [[r2 st2] out2].
      by eexists _, _, _.
    + by eexists _, _, _.
  - apply bool_decide_eq_false in Hx.
    rewrite visit_seen by (cbn [visited]; by apply dec_stable).
    destruct (IH m (mkState (rev rq) (visited st) (fs st)))
      as (r & st' & rest & ->); [done|done|lia|].
    by eexists _, _, _.
Qed.

(** Nothing unvisited on the queue: the loop empties it and ends. *)
Lemma while_queue_drain (base : string) (dest : Path) (dry : bool)
    (rq : list string) :
  forall (m : nat) (st : State),
    queue st = rev rq ->
    List.find (unvisited (visited st)) rq = None ->
    length rq <= m ->
    while_queue net dsz m base dest dry st
    = (Finished, mkState [] (visited st) (fs st), []).
Proof.
  induction rq as [|x rq IH]; intros m st Hq Hfind Hm.
  - rewrite while_queue_empty by done. destruct st. cbn in *. by subst.
  - cbn [rev] in Hq. cbn [List.find] in Hfind. cbn [length] in Hm.
    destruct m as [|m]; [lia|].
    rewrite (while_queue_step _ _ _ _ _ _ _ Hq).
    destruct (unvisited (visited st) x) eqn:Hx; [done|].
    apply bool_decide_eq_false in Hx.
    rewrite visit_seen by (cbn [visited]; by apply dec_stable).
    by rewrite (IH m (mkState (rev rq) (visited st) (fs st))) by (done || lia).
Qed.

(** Fuel adds up. *)
Lemma while_queue_split (n m : nat) (base : string) (dest : Path) (dry : bool)
    (st : State) :
  while_queue net dsz (n + m) base dest dry st
  = match while_queue net dsz n base dest dry st with
    | (OutOfFuel, st1, out1) =>
        let '(r, st2, out2) := while_queue net dsz m base dest dry st1 in
        (r, st2, out1 ++ out2)
    | res => res
    end.
Proof.
  revert st. induction n as [|n IH]; intros st.
  - cbn [plus]. destruct (queue_cases (queue st)) as [Hq|(rest & current & Hq)].
    + by rewrite !while_queue_empty.
    + assert (while_queue net dsz 0 base dest dry st = (OutOfFuel, st, [])) as ->
        by (cbn [while_queue]; by rewrite Hq, pop_snoc).
      by destruct (while_queue _ _ _ _ _ _ _) as [[r st2] out2].
  - cbn [plus]. destruct (queue_cases (queue st)) as [Hq|(rest & current & Hq)].
    + by rewrite !while_queue_empty.
    + rewrite !(while_queue_step _ _ _ _ _ _ _ Hq).
      destruct (visit _ _ _ _ _ _ _) as [[[|e] st1] out1]; [|done].
      rewrite IH.
      destruct (while_queue net dsz n base dest dry st1) as [[[| |] st2] out2];
        try done.
      destruct (while_queue _ _ _ _ _ _ _) as [[r st3] out3].
      by rewrite app_assoc.
Qed.

(** C10. The queue is a stack: [pop] takes its last element, and a link is
    appended behind it.  Stop a crawl after any number [n] of iterations
    with work left, in state [st] and with events [out].  Then
    - the loop will next take the last element of the queue;
    - the enqueued URLs (the root and those of the [QUEUE] events, in
      order) that are not yet visited are the unvisited URLs of the queue,
      in the same order;
    - if [u] is the most recently enqueued URL not yet visited, the run
      goes on with the visit of [u]: its next events are
      [CRAWL (normalize_directory_url u)] and [GET_listing u];
    - if every enqueued URL is visited, the run ends without another
      event. *)
Theorem crawl_lifo (n : nat) (base_url : string) (dest : Path) (dry : bool)
    (fs0 : FS) (st : State) (out : list Event) :
  crawl net dsz n base_url dest dry fs0 = (OutOfFuel, st, out) ->
  let root := normalize_directory_url base_url in
  pop (queue st) = Some (List.last (queue st) root, removelast (queue st))
  /\ List.filter (unvisited (visited st)) (root :: queued out)
     = List.filter (unvisited (visited st)) (queue st)
  /\ (forall u m,
        last_unvisited (visited st) (root :: queued out) = Some u ->
        length (queue st) <= m ->
        exists r st' rest,
          crawl net dsz (n + m) base_url dest dry fs0
          = (r, st', out ++ CRAWL (normalize_directory_url u)
                         :: GET_listing u :: rest))
  /\ (forall m,
        last_unvisited (visited st) (root :: queued out) = None ->
        length (queue st) <= m ->
        crawl net dsz (n + m) base_url dest dry fs0
        = (Finished, mkState [] (visited st) (fs st), out)).
Proof.
  intros Hrun. cbv zeta. unfold crawl in *.
  set (root := normalize_directory_url base_url) in *.
  set (st0 := mkState [root] ∅ fs0) in *.
  assert (List.filter (unvisited (visited st)) (root :: queued out)
          = List.filter (unvisited (visited st)) (queue st)) as Hinv.
  { by apply (while_queue_pending n root dest dry [root] st0 st OutOfFuel out). }
  split; [|split; [exact Hinv|split]].
  - destruct (queue_cases (queue st)) as [Hq|(rest & current & ->)].
    + by apply while_queue_status in Hrun as [_ H]; destruct H.
    + by rewrite pop_snoc, last_last, removelast_last.
  - intros u m Hu Hm.
    rewrite (last_unvisited_filter _ _ _ Hinv) in Hu.
    rewrite while_queue_split, Hrun.
    destruct (while_queue_next root dest dry u (rev (queue st)) m st)
      as (r & st' & rest & ->);
      [by rewrite rev_involutive | exact Hu | by rewrite length_rev |].
    by eexists _, _, _.
  - intros m Hu Hm.
    rewrite (last_unvisited_filter _ _ _ Hinv) in Hu.
    rewrite while_queue_split, Hrun.
    rewrite (while_queue_drain root dest dry (rev (queue st)) m st);
      [by rewrite app_nil_r | by rewrite rev_involutive | exact Hu
      | by rewrite length_rev].
Qed.

(** *** Dry runs *)

Lemma dispatch_file_dry (base : string) (dest : Path) (a : string)
    (st st' : State) (r : Completion) (out : list Event) :
  dispatch_file net dsz base dest true a st = (r, st', out) ->
  r = Returned /\ fs st' = fs st /\ Forall (fun e => is_GET_file e = false) out.
Proof.
  unfold dispatch_file.
  destruct (get_remote_file_size net a) as [sz probe] eqn:Hp.
  rewrite download_file_unfold.
  assert (Forall (fun e => is_GET_file e = false) probe) as Hprobe.
  { unfold get_remote_file_size in Hp.
    destruct (head net a) as [[n|]|]; injection Hp as <- <-;
      repeat constructor. }
  destruct (_ && _); cbv zeta.
  - intros [= <- <- <-]. repeat split.
    rewrite Forall_app. split; [|repeat constructor].
    rewrite Forall_app. split; [done|repeat constructor].
  - intros [= <- <- <-]. repeat split.
    rewrite !Forall_app. repeat split; try done; try by repeat constructor.
    destruct (path_exists _ _); repeat constructor.
Qed.

Lemma for_links_dry (base : string) (dest : Path) (current : string)
    (hrefs : list string) (st st' : State) (r : Completion) (out : list Event) :
  for_links net dsz base dest true current hrefs st = (r, st', out) ->
  r = Returned /\ fs st' = fs st /\ Forall (fun e => is_GET_file e = false) out.
Proof.
  revert st st' r out.
  induction hrefs as [|href hrefs IH]; intros st st' r out; cbn [for_links].
  - by intros [= <- <- <-].
  - destruct (process_link _ _ _ _ _ _ _ _) as [[r1 st1] out1] eqn:H1.
    assert (r1 = Returned /\ fs st1 = fs st
            /\ Forall (fun e => is_GET_file e = false) out1) as (-> & Hfs1 & Hg1).
    { rewrite process_link_resolve in H1.
      destruct (resolve_link base current href) as [|a|a].
      - by injection H1 as <- <- <-.
      - injection H1 as <- <- <-. repeat split. repeat constructor.
      - by apply dispatch_file_dry in H1. }
    destruct (for_links _ _ _ _ _ _ _ _) as [[r2 st2] out2] eqn:H2.
    apply IH in H2 as (-> & Hfs2 & Hg2). intros [= <- <- <-].
    split; [done|]. split; [congruence|]. by apply Forall_app.
Qed.

Lemma while_queue_dry (fuel : nat) (base : string) (dest : Path)
    (st st' : State) (r : Status) (out : list Event) :
  while_queue net dsz fuel base dest true st = (r, st', out) ->
  (forall e, r <> Aborted e) /\ fs st' = fs st
  /\ Forall (fun e => is_GET_file e = false) out.
Proof.
  revert st st' r out. induction fuel as [|fuel IH]; intros st st' r out.
  - cbn [while_queue]. destruct (pop (queue st)) as [[c q]|];
      by intros [= <- <- <-].
  - destruct (queue_cases (queue st)) as [Hq|(rest & current & Hq)].
    { rewrite while_queue_empty by done. by intros [= <- <- <-]. }
    rewrite (while_queue_step _ _ _ _ _ _ _ Hq).
    destruct (visit _ _ _ _ _ _ _) as [[r1 st1] out1] eqn:H1.
    assert (r1 = Returned /\ fs st1 = fs st
            /\ Forall (fun e => is_GET_file e = false) out1) as (-> & Hfs1 & Hg1).
    { destruct (decide (normalize_directory_url current ∈ visited st)) as [Hin|Hin].
      - rewrite visit_seen in H1 by done. by injection H1 as <- <- <-.
      - rewrite visit_new in H1 by done. cbv zeta in H1.
        destruct (fetch_links net current) as [hrefs|].
        + destruct (for_links _ _ _ _ _ _ _ _) as [[r2 st2] out2] eqn:H2.
          apply for_links_dry in H2 as (-> & Hfs2 & Hg2).
          injection H1 as <- <- <-. repeat split; [done|].
          by repeat constructor.
        + injection H1 as <- <- <-. repeat split. repeat constructor. }
    destruct (while_queue _ _ _ _ _ _ _) as [[r2 st2] out2] eqn:H2.
    apply IH in H2 as (Hr2 & Hfs2 & Hg2). intros [= <- <- <-].
    split; [done|]. split; [congruence|]. by apply Forall_app.
Qed.

(** *** The traversal does not depend on the mode or on the file system *)

(** Two runs from states with the same queue and the same visited set, the
    first of which is not stopped by a file-system error: the traversal
    events of the second are an initial part of those of the first, and
    all of them when the second is not stopped either. *)
Lemma while_queue_traversal (fuel : nat) (base : string) (dest : Path)
    (dryA dryB : bool) :
  forall (stA stB stA' stB' : State) (rA rB : Status) (outA outB : list Event),
    queue stA = queue stB -> visited stA = visited stB ->
    while_queue net dsz fuel base dest dryA stA = (rA, stA', outA) ->
    while_queue net dsz fuel base dest dryB stB = (rB, stB', outB) ->
    (forall e, rA <> Aborted e) ->
    (exists rest, traversal outA = traversal outB ++ rest)
    /\ ((forall e, rB <> Aborted e) ->
        rB = rA /\ queue stB' = queue stA' /\ visited stB' = visited stA'
        /\ traversal outB = traversal outA).
Proof.
  induction fuel as [|fuel IH];
    intros stA stB stA' stB' rA rB outA outB Hq Hv.
  - cbn [while_queue]. rewrite Hq.
    destruct (pop (queue stB)) as [[c q]|];
      intros [= <- <- <-] [= <- <- <-] _; (split; [by exists []|done]).
  - destruct (queue_cases (queue stB)) as [HqB|(rest & current & HqB)].
    { rewrite !while_queue_empty by congruence.
      intros [= <- <- <-] [= <- <- <-] _. split; [by exists []|done]. }
    assert (queue stA = rest ++ [current]) as HqA by congruence.
    rewrite (while_queue_step _ _ _ _ _ _ _ HqA).
    rewrite (while_queue_step _ _ _ _ _ _ _ HqB).
    rewrite Hv.
    destruct (decide (normalize_directory_url current ∈ visited stB)) as [Hin|Hin].
    { rewrite !visit_seen by done.
      destruct (while_queue net dsz fuel base dest dryA _) as [[rA2 stA2] outA2] eqn:HA.
      destruct (while_queue net dsz fuel base dest dryB _) as [[rB2 stB2] outB2] eqn:HB.
      intros [= <- <- <-] [= <- <- <-] HrA.
      by refine (IH _ _ _ _ _ _ _ _ _ _ HA HB HrA). }
    rewrite !visit_new by done. cbv zeta.
    destruct (fetch_links net current) as [hrefs|].
    2:{ destruct (while_queue net dsz fuel base dest dryA _) as [[rA2 stA2] outA2] eqn:HA.
        destruct (while_queue net dsz fuel base dest dryB _) as [[rB2 stB2] outB2] eqn:HB.
        intros [= <- <- <-] [= <- <- <-] HrA.
        destruct (fun q v => IH _ _ _ _ _ _ _ _ q v HA HB HrA) as [[rest' Hp] He];
          [done|done|].
        split.
        - exists rest'. cbn [app]. rewrite !traversal_cons_true by done.
          by rewrite Hp.
        - intros HrB. destruct (He HrB) as (-> & -> & -> & Ht).
          repeat split. cbn [app]. rewrite !traversal_cons_true by done.
          by rewrite Ht. }
    destruct (for_links net dsz base dest dryA _ _ _) as [[rA1 stA1] outA1] eqn:HA1.
    destruct (for_links net dsz base dest dryB _ _ _) as [[rB1 stB1] outB1] eqn:HB1.
    apply for_links_shape in HA1 as (HvA & HqA1 & HrA1 & restA & HtA & HfA).
    apply for_links_shape in HB1 as (HvB & HqB1 & HrB1 & restB & HtB & HfB).
    cbn [queue visited] in *.
    destruct rA1 as [|eA]; [|by intros [= <- <- <-] _ HrA; destruct (HrA eA)].
    rewrite (HfA eq_refl), app_nil_r in HtA.
    destruct rB1 as [|eB].
    + rewrite (HfB eq_refl), app_nil_r in HtB.
      assert (traversal outB1 = traversal outA1) as Ht1 by congruence.
      assert (queue stA1 = queue stB1) as Hq1.
      { rewrite HqA1, HqB1, (queued_not_traversal outA1),
          (queued_not_traversal outB1). by rewrite Ht1. }
      assert (visited stA1 = visited stB1) as Hv1 by congruence.
      destruct (while_queue net dsz fuel base dest dryA _) as [[rA2 stA2] outA2] eqn:HA.
      destruct (while_queue net dsz fuel base dest dryB _) as [[rB2 stB2] outB2] eqn:HB.
      intros [= <- <- <-] [= <- <- <-] HrA.
      destruct (IH _ _ _ _ _ _ _ _ Hq1 Hv1 HA HB HrA) as [[rest' Hp] He].
      split.
      * exists rest'. cbn [app]. rewrite !traversal_cons_true by done.
        rewrite !traversal_app, Hp, Ht1. cbn [app].
        by rewrite <- !app_assoc.
      * intros HrB. destruct (He HrB) as (-> & -> & -> & Ht).
        repeat split. cbn [app]. rewrite !traversal_cons_true by done.
        by rewrite !traversal_app, Ht, Ht1.
    + destruct (while_queue net dsz fuel base dest dryA _) as [[rA2 stA2] outA2] eqn:HA.
      intros [= <- <- <-] [= <- <- <-] HrA. split.
      * exists (restB ++ traversal outA2). cbn [app].
        rewrite !traversal_cons_true by done.
        rewrite !traversal_app, <- HtA, HtB. cbn [app].
        by rewrite <- !app_assoc.
      * intros HrB. by destruct (HrB eB).
Qed.

(** C8. A crawl in dry-run mode leaves the whole file system as it found
    it (no file and no directory is created or changed) and requests no
    file body, however the run ends.  Its traversal is that of a real run:
    whenever neither the dry run nor the run without [--dry-run], on any
    file system, is stopped by an error, both runs end the same way, with
    the same queue and visited set, and with the same traversal events,
    that is the same listing pages fetched, the same directories queued
    and the same files probed, in the same order. *)
Theorem crawl_dry_run (fuel : nat) (base_url : string) (dest : Path) (fs0 : FS)
    (status : Status) (st : State) (out : list Event) :
  crawl net dsz fuel base_url dest true fs0 = (status, st, out) ->
  fs st = fs0
  /\ (forall u, ~ In (GET_file u) out)
  /\ (forall fs0' status' st' out',
        crawl net dsz fuel base_url dest false fs0' = (status', st', out') ->
        (forall e, status <> Aborted e) ->
        (forall e, status' <> Aborted e) ->
        status = status' /\ queue st = queue st' /\ visited st = visited st'
        /\ traversal out = traversal out'
        /\ fetched out = fetched out' /\ queued out = queued out'
        /\ files out = files out').
Proof.
  unfold crawl. intros Hrun.
  pose proof (while_queue_dry _ _ _ _ _ _ _ Hrun) as (_ & Hfs & Hg).
  split; [done|]. split.
  - intros u Hu. rewrite List.Forall_forall in Hg. by apply Hg in Hu.
  - intros fs0' status' st' out' Hrun' Hr Hr'. unfold crawl in Hrun'.
    destruct (fun q v => while_queue_traversal _ _ _ _ _ _ _ _ _ _ _ _ _
                q v Hrun' Hrun Hr') as [_ He]; [done|done|].
    destruct (He Hr) as (-> & -> & -> & Ht).
    repeat split; try done.
    + by rewrite (fetched_not_traversal out), (fetched_not_traversal out'), Ht.
    + by rewrite (queued_not_traversal out), (queued_not_traversal out'), Ht.
    + by rewrite (files_not_traversal out), (files_not_traversal out'), Ht.
Qed.

(** *** A second run *)

Lemma mkdir_from_preserves (rest : list string) :
  forall (pre : Path) (F F1 : FS) (p : Path) (x : Node),
    mkdir_from pre rest F = Some F1 -> F !! p = Some x -> F1 !! p = Some x.
Proof.
  induction rest as [|seg rest IH]; intros pre F F1 p x; cbn [mkdir_from].
  - by intros [= <-].
  - destruct (F !! (pre ++ [seg])) as [[c|]|] eqn:E; [done| |].
    + apply IH.
    + intros Hmk Hp. eapply IH; [exact Hmk|].
      rewrite lookup_insert_ne; [done|]. intros <-. congruence.
Qed.
















End CrawlProperties.

(** ** Runs on the sample sites *)

(** The pages of a site given by a table are the keys of the table. *)
Lemma site_listing_pages (table : list (string * list string)) (u : string) :
  site_listing table u <> None -> In u (map fst table).
Proof.
  unfold site_listing.
  destruct (List.find _ table) as [[k hrefs]|] eqn:E; [|done].
  intros _. apply find_some in E as [Hin Hk]. cbn [fst] in Hk.
  apply String.eqb_eq in Hk as ->. apply in_map_iff. by exists (u, hrefs).
Qed.

(** The real run over [cycle_site]. *)
Lemma cycle_run :
  crawl cycle_site 4096%Z 5 "https://h/a" ["/"; "out"] false out_dir
  = (Finished, mkState [] cycle_visited cycle_tree, cycle_log).
Proof. vm_compute. reflexivity. Qed.

(** The dry run over [cycle_site]. *)
Lemma cycle_dry_run :
  crawl cycle_site 4096%Z 5 "https://h/a" ["/"; "out"] true out_dir
  = (Finished, mkState [] cycle_visited out_dir, cycle_dry_log).
Proof. vm_compute. reflexivity. Qed.

(** Scope containment on the run over [cycle_site]: the file it downloads is
    below the root. *)
Lemma crawl_scope_containment_witness :
  crawl cycle_site 4096%Z 5 "https://h/a" ["/"; "out"] false out_dir
  = (Finished, mkState [] cycle_visited cycle_tree, cycle_log)
  /\ is_in_scope "https://h/a/b/x.pdf" (normalize_directory_url "https://h/a")
     = true.
Proof.
  split; [exact cycle_run|].
  apply (proj1 (crawl_scope_containment cycle_site 4096%Z 5 "https://h/a"
                  ["/"; "out"] false out_dir _ _ _ cycle_run)
           (GET_file "https://h/a/b/x.pdf")).
  - unfold cycle_log, cycle_traversal. cbn. tauto.
  - reflexivity.
Defined.

(** C2. The loop of [crawl] ends on every site with finitely many listing
    pages, whatever links there are between them: when every URL whose
    listing can be fetched is in the list [pages], [crawl_bound net pages]
    iterations or more never run out of fuel; the run finishes with an
    empty queue, or stops on a file-system error.  In every run no two
    listing requests are for URLs with the same normalised form, since the
    normalised URL of each request is in the visited set from then on,
    until the end.  On the site of two directories [/a/] and [/a/b/] that
    link to each other, the run finishes and fetches each of them exactly
    once. *)
Theorem crawl_terminates :
  (forall (U : UrlLib) (net : Remote) (dsz : Z) (pages : list string)
          (fuel : nat) (base_url : string) (dest : Path) (dry : bool)
          (fs0 : FS) (status : Status) (st : State) (out : list Event),
     (forall u, listing net u <> None -> In u pages) ->
     crawl_bound net pages <= fuel ->
     crawl net dsz fuel base_url dest dry fs0 = (status, st, out) ->
     status <> OutOfFuel
     /\ (status = Finished -> queue st = [])
     /\ List.NoDup (map normalize_directory_url (fetched out))
     /\ (forall u, In u (fetched out) -> normalize_directory_url u ∈ visited st))
  /\ (exists st out,
        crawl cycle_site 4096%Z
          (crawl_bound cycle_site ["https://h/a/"; "https://h/a/b/"])
          "https://h/a" ["/"; "out"] false out_dir = (Finished, st, out)
        /\ fetched out = ["https://h/a/"; "https://h/a/b/"]).
Proof.
  split.
  - intros U net dsz pages fuel base_url dest dry fs0 status st out.
    apply crawl_terminates_on_finite_site.
  - exists (mkState [] cycle_visited cycle_tree), cycle_log.
    split; [exact cycle_run | reflexivity].
Qed.

(** Termination on [cycle_site], whose two pages link to each other. *)
Lemma crawl_terminates_witness :
  (forall u, listing cycle_site u <> None
             -> In u ["https://h/a/"; "https://h/a/b/"])
  /\ crawl_bound cycle_site ["https://h/a/"; "https://h/a/b/"] <= 5
  /\ crawl cycle_site 4096%Z 5 "https://h/a" ["/"; "out"] false out_dir
     = (Finished, mkState [] cycle_visited cycle_tree, cycle_log)
  /\ Finished <> OutOfFuel
  /\ List.NoDup (map normalize_directory_url (fetched cycle_log)).
Proof.
  assert (forall u, listing cycle_site u <> None
                    -> In u ["https://h/a/"; "https://h/a/b/"]) as Hpages
    by (intros u; apply site_listing_pages).
  assert (crawl_bound cycle_site ["https://h/a/"; "https://h/a/b/"] <= 5)
    as Hfuel by (vm_compute; lia).
  split; [exact Hpages|]. split; [exact Hfuel|]. split; [exact cycle_run|].
  destruct (proj1 crawl_terminates cpython cycle_site 4096%Z _ 5 "https://h/a"
              ["/"; "out"] false out_dir _ _ _ Hpages Hfuel cycle_run)
    as (H1 & _ & H3 & _).
  split; [exact H1 | exact H3].
Defined.

(** C7, on the code.  The listing [https://h/images/] has the entry
    [readme], which [classify_link] takes for a directory.  The crawler
    announces the visit of the normalised URL [https://h/images/readme/]
    and puts that URL in the visited set, but the listing it requests is
    that of the URL as popped, [https://h/images/readme]; and it resolves
    the entry [x.pdf] of that listing against the popped URL, to
    [https://h/images/x.pdf], a file of the parent directory. *)
Theorem listing_fetched_at_popped_url :
  crawl readme_site 4096%Z 5 "https://h/images/" ["/"; "out"] true out_dir
  = (Finished,
     mkState [] {[ "https://h/images/"; "https://h/images/readme/" ]} out_dir,
     [CRAWL "https://h/images/"; GET_listing "https://h/images/";
      QUEUE "https://h/images/readme";
      CRAWL "https://h/images/readme/"; GET_listing "https://h/images/readme";
      HEAD_file "https://h/images/x.pdf";
      FILE "https://h/images/x.pdf" (Some 3%Z);
      DRY_RUN "https://h/images/x.pdf" ["/"; "out"; "x.pdf"] (Some 3%Z)])
  /\ normalize_directory_url "https://h/images/readme" = "https://h/images/readme/"
  /\ "https://h/images/readme" <> "https://h/images/readme/"
  /\ urljoin "https://h/images/readme/" "x.pdf" = "https://h/images/readme/x.pdf".
Proof. vm_compute. repeat split. discriminate. Qed.

(** The dry run over [cycle_site] next to the real run. *)
Lemma crawl_dry_run_witness :
  crawl cycle_site 4096%Z 5 "https://h/a" ["/"; "out"] true out_dir
  = (Finished, mkState [] cycle_visited out_dir, cycle_dry_log)
  /\ crawl cycle_site 4096%Z 5 "https://h/a" ["/"; "out"] false out_dir
     = (Finished, mkState [] cycle_visited cycle_tree, cycle_log)
  /\ fs (mkState [] cycle_visited out_dir) = out_dir
  /\ ~ In (GET_file "https://h/a/b/x.pdf") cycle_dry_log
  /\ traversal cycle_dry_log = traversal cycle_log.
Proof.
  split; [exact cycle_dry_run|]. split; [exact cycle_run|].
  destruct (crawl_dry_run cycle_site 4096%Z 5 "https://h/a" ["/"; "out"] out_dir
              _ _ _ cycle_dry_run) as (H1 & H3 & H4).
  split; [exact H1|]. split; [exact (H3 _)|].
  destruct (H4 _ _ _ _ cycle_run) as (_ & _ & _ & Ht & _);
    [done | done | exact Ht].
Defined.

(** After one iteration on [cycle_site] the queue holds [/a/b/]; the run
    goes on with its visit. *)
Lemma crawl_lifo_witness :
  crawl cycle_site 4096%Z 1 "https://h/a" ["/"; "out"] false out_dir
  = (OutOfFuel, mkState ["https://h/a/b/"] {[ "https://h/a/" ]} out_dir,
     [CRAWL "https://h/a/"; GET_listing "https://h/a/"; QUEUE "https://h/a/b/"])
  /\ last_unvisited {[ "https://h/a/" ]}
       (normalize_directory_url "https://h/a" :: ["https://h/a/b/"])
     = Some "https://h/a/b/"
  /\ exists r st' rest,
       crawl cycle_site 4096%Z (1 + 1) "https://h/a" ["/"; "out"] false out_dir
       = (r, st',
          [CRAWL "https://h/a/"; GET_listing "https://h/a/"; QUEUE "https://h/a/b/"]
          ++ CRAWL (normalize_directory_url "https://h/a/b/")
             :: GET_listing "https://h/a/b/" :: rest).
Proof.
  assert (crawl cycle_site 4096%Z 1 "https://h/a" ["/"; "out"] false out_dir
          = (OutOfFuel, mkState ["https://h/a/b/"] {[ "https://h/a/" ]} out_dir,
             [CRAWL "https://h/a/"; GET_listing "https://h/a/";
              QUEUE "https://h/a/b/"])) as Hrun
    by (vm_compute; reflexivity).
  assert (last_unvisited {[ "https://h/a/" ]}
            (normalize_directory_url "https://h/a" :: ["https://h/a/b/"])
          = Some "https://h/a/b/") as Hlast
    by (vm_compute; reflexivity).
  split; [exact Hrun|]. split; [exact Hlast|].
  destruct (crawl_lifo cycle_site 4096%Z 1 "https://h/a" ["/"; "out"] false
              out_dir _ _ Hrun) as (_ & _ & Hnext & _).
  apply (Hnext "https://h/a/b/" 1 Hlast). cbn. lia.
Defined.






(** * Further properties of the script *)

(** The run over [flaky_site]. *)
Lemma flaky_run :
  crawl flaky_site 4096%Z 5 "https://h/images/" ["/"; "out"] false out_dir
  = (Finished,
     mkState [] {[ "https://h/images/"; "https://h/images/gone/" ]} flaky_tree,
     flaky_log).
Proof. vm_compute. reflexivity. Qed.

(** ** Normalised URLs *)

Lemma length_append (s t : string) :
  String.length (s +:+ t) = String.length s + String.length t.
Proof. induction s as [|c s IH]; [done|]. cbn. by rewrite <- IH. Qed.

Lemma drop_length_append (s t : string) : Py.drop (String.length s) (s +:+ t) = t.
Proof. induction s as [|c s IH]; [by destruct t|]. exact IH. Qed.

Lemma endswith_append (s t : string) : Py.endswith (s +:+ t) t = true.
Proof.
  unfold Py.endswith. rewrite length_append.
  replace (String.length s + String.length t - String.length t)
    with (String.length s) by lia.
  rewrite drop_length_append, String.eqb_refl.
  apply andb_true_iff. split; [|done]. apply Nat.leb_le. lia.
Qed.

(** [normalize_directory_url] returns the URL without its fragment when
    that ends with a slash, and that URL followed by a slash otherwise: its
    result always ends with a slash. *)
Theorem normalize_directory_url_ends_with_slash {U : UrlLib} (url : string) :
  Py.endswith (normalize_directory_url url) "/" = true
  /\ (Py.endswith (fst (urldefrag url)) "/" = true ->
      normalize_directory_url url = fst (urldefrag url))
  /\ (Py.endswith (fst (urldefrag url)) "/" = false ->
      normalize_directory_url url = fst (urldefrag url) +:+ "/").
Proof.
  unfold normalize_directory_url.
  destruct (Py.endswith (fst (urldefrag url)) "/") eqn:E; cbn [negb].
  - by rewrite E.
  - split; [apply endswith_append | done].
Qed.

(** ** Repeated attributes *)

Lemma find_app_skip {A : Type} (f : A -> bool) (l1 l2 : list A) :
  (forall x, In x l1 -> f x = false) ->
  List.find f (l1 ++ l2) = List.find f l2.
Proof.
  induction l1 as [|a l1 IH]; [done|]. intros H. cbn [app List.find].
  rewrite (H a) by (by left). apply IH. intros x Hx. apply H. by right.
Qed.

(** When an anchor repeats the [href] attribute, the last one counts: an
    anchor whose last [href] has the non-empty value [v] adds exactly [v]
    to the links, whatever attributes come before it, and whatever the
    case of the tag name. *)
Theorem last_href_wins (self : DirectoryListingParser) (tag : string)
    (before after : list (string * option string)) (v : string) :
  Py.lower tag = "a" ->
  v <> "" ->
  (forall kv, In kv after -> fst kv <> "href") ->
  links (handle_starttag self tag (before ++ ("href", Some v) :: after))
  = links self ++ [v].
Proof.
  intros Htag Hv Hafter.
  rewrite handle_starttag_links. f_equal.
  unfold anchor_href, last_href. cbn [fst snd]. rewrite Htag.
  rewrite rev_app_distr. cbn [rev]. rewrite <- !app_assoc. cbn [app].
  rewrite find_app_skip.
  - cbn [List.find fst]. by destruct v.
  - intros kv Hkv. apply in_rev in Hkv. apply Hafter in Hkv.
    by apply String.eqb_neq.
Qed.

(** Two [href] attributes on one anchor: the second is extracted. *)
Lemma last_href_wins_witness :
  Py.lower "A" = "a" /\ "new/" <> ""
  /\ links (handle_starttag (mkParser ["x"]) "A"
              ([("href", Some "old/")] ++ ("href", Some "new/") :: [("class", None)]))
     = ["x"] ++ ["new/"].
Proof.
  split; [reflexivity|]. split; [discriminate|].
  apply (last_href_wins (mkParser ["x"]) "A" [("href", Some "old/")]
           [("class", None)] "new/"); [reflexivity | discriminate |].
  intros kv [<-|[]]. discriminate.
Defined.

(** ** Further properties of the crawl *)

Section CrawlCoverage.

Context {U : UrlLib}.
Variable net : Remote.
Variable dsz : Z.

(** *** What a link can cause *)

(** The loop body acts on a link only as its class says: it queues the
    resolved URL of a link only if [classify_link] says [dir], probes and
    dispatches it only if [classify_link] says [pdf], in both cases only
    when the prefix test lets the link pass; a link of any other class, or
    stopped by the prefix test, leaves the state as it is and produces no
    event. *)
Theorem link_effects_follow_class (base : string) (dest : Path) (dry : bool)
    (current href : string) (st st' : State) (r : Completion) (out : list Event) :
  process_link net dsz base dest dry current href st = (r, st', out) ->
  let absolute := fst (urldefrag (urljoin current href)) in
  (forall a, In (QUEUE a) out ->
     a = absolute /\ classify_link href = "dir" /\ should_skip_link href = false)
  /\ (forall a sz, In (FILE a sz) out ->
        a = absolute /\ classify_link href = "pdf" /\ should_skip_link href = false)
  /\ (should_skip_link href = true
      \/ (classify_link href <> "dir" /\ classify_link href <> "pdf") ->
      r = Returned /\ st' = st /\ out = []).
Proof.
  intros Hrun. cbv zeta.
  assert (forall e, In e (traversal out) <-> In e out /\ is_traversal e = true)
    as Htr by (intros e; apply filter_In).
  pose proof (process_link_shape net dsz _ _ _ _ _ _ _ _ _ Hrun) as (_ & _ & Ht & _).
  unfold link_trace in Ht. rewrite process_link_resolve in Hrun.
  unfold resolve_link in *.
  destruct (should_skip_link href).
  { injection Hrun as <- <- <-. repeat split; try done; by intros ? []. }
  cbv zeta in *.
  destruct (negb (is_same_origin _ base) || negb (is_within_base_path _ base)).
  { injection Hrun as <- <- <-.
    split; [by intros ? []|]. split; [by intros ? ? []|]. done. }
  destruct (String.eqb_spec (classify_link href) "dir") as [Hd|Hd].
  { injection Hrun as <- <- <-. split; [|split].
    - intros a [[= <-]|[]]. done.
    - intros a sz [?|[]]. done.
    - intros [?|[? _]]; done. }
  destruct (String.eqb_spec (classify_link href) "pdf") as [Hp|Hp].
  - split; [|split].
    + intros a Ha. assert (In (QUEUE a) (traversal out)) as Hin by (by apply Htr).
      rewrite Ht in Hin. apply in_app_or in Hin as [Hin|[?|[]]]; [|done].
      unfold get_remote_file_size in Hin.
      destruct (head net _) as [[n|]|]; cbn in Hin; intuition discriminate.
    + intros a sz Ha.
      assert (In (FILE a sz) (traversal out)) as Hin by (by apply Htr).
      rewrite Ht in Hin. apply in_app_or in Hin as [Hin|[[= <- <-]|[]]]; [|done].
      unfold get_remote_file_size in Hin.
      destruct (head net _) as [[n|]|]; cbn in Hin; intuition discriminate.
    + intros [?|[_ ?]]; done.
  - injection Hrun as <- <- <-.
    split; [by intros ? []|]. split; [by intros ? ? []|]. done.
Qed.

(** *** Network errors *)

Lemma while_queue_no_URLError (fuel : nat) (base : string) (dest : Path)
    (dry : bool) :
  forall (st st' : State) (r : Status) (out : list Event),
    while_queue net dsz fuel base dest dry st = (r, st', out) ->
    r <> Aborted URLError.
Proof.
  induction fuel as [|fuel IH]; intros st st' r out.
  - cbn [while_queue]. destruct (pop (queue st)) as [[c q]|];
      by intros [= <- _ _].
  - destruct (queue_cases (queue st)) as [Hq|(rest & current & Hq)].
    { rewrite while_queue_empty by done. by intros [= <- _ _]. }
    rewrite (while_queue_step net dsz _ _ _ _ _ _ _ Hq).
    destruct (visit _ _ _ _ _ _ _) as [[r1 st1] out1] eqn:H1.
    assert (r1 = Returned \/ r1 = Raised OSError) as Hr1.
    { destruct (decide (normalize_directory_url current ∈ visited st)) as [Hin|Hin].
      - rewrite visit_seen in H1 by done. injection H1 as <- _ _. by left.
      - rewrite visit_new in H1 by done. cbv zeta in H1.
        destruct (fetch_links net current) as [hrefs|].
        + destruct (for_links _ _ _ _ _ _ _ _) as [[r2 st2] out2] eqn:H2.
          apply for_links_shape in H2 as (_ & _ & Hr2 & _).
          by injection H1 as <- _ _.
        + injection H1 as <- _ _. by left. }
    destruct Hr1 as [-> | ->]; [|by intros [= <- _ _]].
    destruct (while_queue _ _ _ _ _ _ _) as [[r2 st2] out2] eqn:H2.
    intros [= <- _ _]. by eapply IH.
Qed.

(** No [URLError] leaves [crawl]: the one raised for a listing is caught
    in the loop, the one raised for a size probe in
    [get_remote_file_size], the one raised for a file body around
    [download_file]; so no run is stopped by a [URLError]. *)
Theorem crawl_catches_URLError (fuel : nat) (base_url : string) (dest : Path)
    (dry : bool) (fs0 : FS) (status : Status) (st : State) (out : list Event) :
  crawl net dsz fuel base_url dest dry fs0 = (status, st, out) ->
  status <> Aborted URLError.
Proof. unfold crawl. apply while_queue_no_URLError. Qed.

(** *** The visited set *)

Lemma while_queue_visited (fuel : nat) (base : string) (dest : Path) (dry : bool) :
  forall (st st' : State) (r : Status) (out : list Event),
    while_queue net dsz fuel base dest dry st = (r, st', out) ->
    visited st'
    = visited st ∪ list_to_set (map normalize_directory_url (fetched out)).
Proof.
  induction fuel as [|fuel IH]; intros st st' r out.
  - cbn [while_queue]. destruct (pop (queue st)) as [[c q]|];
      intros [= <- <- <-]; cbn; set_solver.
  - destruct (queue_cases (queue st)) as [Hq|(rest & current & Hq)].
    { rewrite while_queue_empty by done. intros [= <- <- <-]. cbn. set_solver. }
    rewrite (while_queue_step net dsz _ _ _ _ _ _ _ Hq).
    destruct (decide (normalize_directory_url current ∈ visited st)) as [Hin|Hin].
    + rewrite visit_seen by done.
      destruct (while_queue _ _ _ _ _ _ _) as [[r2 st2] out2] eqn:H2.
      apply IH in H2. by intros [= <- <- <-].
    + destruct (visit _ _ _ _ _ _ _) as [[r1 st1] out1] eqn:H1.
      apply visit_new_shape in H1 as (Hv1 & Hf1 & _); [|done].
      cbn [visited] in Hv1.
      destruct r1.
      * destruct (while_queue _ _ _ _ _ _ _) as [[r2 st2] out2] eqn:H2.
        apply IH in H2. intros [= <- <- <-].
        rewrite H2, Hv1, fetched_app, Hf1, map_app, list_to_set_app_L.
        cbn. set_solver.
      * intros [= <- <- <-]. rewrite Hv1, Hf1. cbn. set_solver.
Qed.

(** At every point of a run the visited set is exactly the set of the
    normalised forms of the URLs whose listing has been requested. *)
Theorem visited_is_what_was_fetched (fuel : nat) (base_url : string)
    (dest : Path) (dry : bool) (fs0 : FS) (status : Status) (st : State)
    (out : list Event) :
  crawl net dsz fuel base_url dest dry fs0 = (status, st, out) ->
  visited st = list_to_set (map normalize_directory_url (fetched out)).
Proof.
  unfold crawl. intros H. apply while_queue_visited in H.
  rewrite H. cbn [visited]. set_solver.
Qed.

(** A crawl that finishes has visited every directory it discovered: the
    normalised form of the root and of every queued URL is in the visited
    set, and so its listing was requested. *)
Theorem finished_crawl_visited_all (fuel : nat) (base_url : string)
    (dest : Path) (dry : bool) (fs0 : FS) (st : State) (out : list Event) :
  crawl net dsz fuel base_url dest dry fs0 = (Finished, st, out) ->
  forall u, In u (normalize_directory_url base_url :: queued out) ->
    normalize_directory_url u ∈ visited st
    /\ exists v, In (GET_listing v) out
                 /\ normalize_directory_url v = normalize_directory_url u.
Proof.
  intros Hrun u Hu.
  unfold crawl in Hrun.
  set (root := normalize_directory_url base_url) in *.
  pose proof (while_queue_visited _ _ _ _ _ _ _ _ Hrun) as Hvis.
  cbn [visited] in Hvis. rewrite union_empty_l_L in Hvis.
  pose proof (fun q => while_queue_pending net dsz _ _ _ _ [root] _ _ _ _ q Hrun)
    as Hinv. specialize (Hinv eq_refl).
  apply while_queue_status in Hrun as [Hq _]. rewrite (Hq eq_refl) in Hinv.
  assert (unvisited (visited st) u = false) as Hun.
  { destruct (unvisited (visited st) u) eqn:E; [|done].
    assert (In u (List.filter (unvisited (visited st)) (root :: queued out)))
      as Hin by (apply filter_In; done).
    change (root :: queued out) with ([root] ++ queued out) in Hin.
    by rewrite Hinv in Hin. }
  apply bool_decide_eq_false in Hun. apply dec_stable in Hun.
  split; [done|].
  rewrite Hvis in Hun. apply elem_of_list_to_set, list_elem_of_In in Hun.
  apply in_map_iff in Hun as (v & Hv & Hin). exists v.
  split; [by apply in_fetched | done].
Qed.

(** *** No link is lost *)

Lemma while_queue_complete (fuel : nat) (base : string) (dest : Path) (dry : bool) :
  forall (st st' : State) (r : Status) (out : list Event),
    while_queue net dsz fuel base dest dry st = (r, st', out) ->
    (forall e, r <> Aborted e) ->
    forall current hrefs,
      In current (fetched out) -> fetch_links net current = Some hrefs ->
      incl (page_trace net base current hrefs) out.
Proof.
  induction fuel as [|fuel IH]; intros st st' r out.
  - cbn [while_queue]. destruct (pop (queue st)) as [[c q]|];
      by intros [= <- <- <-].
  - destruct (queue_cases (queue st)) as [Hq|(rest & current & Hq)].
    { rewrite while_queue_empty by done. by intros [= <- <- <-]. }
    rewrite (while_queue_step net dsz _ _ _ _ _ _ _ Hq).
    destruct (decide (normalize_directory_url current ∈ visited st)) as [Hin|Hin].
    { rewrite visit_seen by done.
      destruct (while_queue _ _ _ _ _ _ _) as [[r2 st2] out2] eqn:H2.
      intros [= <- <- <-] Hr. by apply (IH _ _ _ _ H2). }
    rewrite visit_new by done. cbv zeta.
    destruct (fetch_links net current) as [hrefs0|] eqn:Hfetch.
    + destruct (for_links _ _ _ _ _ _ _ _) as [[r1 st1] out1] eqn:H1.
      pose proof (for_links_queue_length net dsz _ _ _ _ _ _ _ _ _ H1) as [_ Hf1].
      apply for_links_shape in H1 as (_ & _ & _ & rest1 & Ht1 & Hfin).
      destruct r1 as [|e]; [|by intros [= <- <- <-] Hr; destruct (Hr e)].
      rewrite (Hfin eq_refl), app_nil_r in Ht1.
      destruct (while_queue _ _ _ _ _ _ _) as [[r2 st2] out2] eqn:H2.
      intros [= <- <- <-] Hr c hrefs Hc Hh.
      apply in_fetched in Hc.
      destruct Hc as [?|[[= <-]|Hc]]; [done| |].
      * assert (hrefs = hrefs0) as -> by congruence.
        rewrite Ht1. intros e He. apply filter_In in He as [He _].
        right. right. apply in_or_app. by left.
      * apply in_app_or in Hc as [Hc|Hc].
        { apply in_fetched in Hc. by rewrite Hf1 in Hc. }
        apply in_fetched in Hc. intros e He.
        right. right. apply in_or_app. right.
        by apply (IH _ _ _ _ H2 Hr c hrefs).
    + destruct (while_queue _ _ _ _ _ _ _) as [[r2 st2] out2] eqn:H2.
      intros [= <- <- <-] Hr c hrefs Hc Hh.
      apply in_fetched in Hc.
      destruct Hc as [?|[[= <-]|[?|Hc]]]; [done|congruence|done|].
      apply in_fetched in Hc. intros e He.
      right. right. right. by apply (IH _ _ _ _ H2 Hr c hrefs).
Qed.

(** In a run that no exception has stopped, no link of a fetched page is
    lost: on every page whose listing was requested and arrived,
    every link that passes the prefix test and resolves to a URL in scope
    has been queued if it is a directory, and has been probed and handed
    to [download_file] if it is a file. *)
Theorem no_link_is_lost (fuel : nat) (base_url : string) (dest : Path)
    (dry : bool) (fs0 : FS) (status : Status) (st : State) (out : list Event)
    (current href : string) (hrefs : list string) :
  crawl net dsz fuel base_url dest dry fs0 = (status, st, out) ->
  (forall e, status <> Aborted e) ->
  In (GET_listing current) out ->
  fetch_links net current = Some hrefs ->
  In href hrefs ->
  should_skip_link href = false ->
  let absolute := fst (urldefrag (urljoin current href)) in
  is_in_scope absolute (normalize_directory_url base_url) = true ->
  (classify_link href = "dir" -> In (QUEUE absolute) out)
  /\ (classify_link href = "pdf" ->
      In (HEAD_file absolute) out
      /\ In (FILE absolute (fst (get_remote_file_size net absolute))) out).
Proof.
  intros Hrun Hr Hget Hfetch Hhref Hskip. cbv zeta.
  set (absolute := fst (urldefrag (urljoin current href))). intros Hscope.
  unfold crawl in Hrun. apply in_fetched in Hget.
  pose proof (while_queue_complete _ _ _ _ _ _ _ _ Hrun Hr _ _ Hget Hfetch)
    as Hincl.
  assert (incl (link_trace net (normalize_directory_url base_url) current href) out)
    as Hlink.
  { intros e He. apply Hincl. unfold page_trace. apply in_flat_map. eauto. }
  unfold link_trace, resolve_link in Hlink. rewrite Hskip in Hlink.
  cbv zeta in Hlink. fold absolute in Hlink.
  unfold is_in_scope in Hscope. apply andb_true_iff in Hscope as [Ho Hw].
  rewrite Ho, Hw in Hlink. cbn [negb orb] in Hlink.
  split.
  - intros Hd. rewrite Hd in Hlink. apply Hlink. by left.
  - intros Hp. rewrite Hp in Hlink.
    change (incl (snd (get_remote_file_size net absolute)
                  ++ [FILE absolute (fst (get_remote_file_size net absolute))])
              out) in Hlink.
    split.
    + apply Hlink. apply in_or_app. left. unfold get_remote_file_size.
      destruct (head net absolute) as [[n|]|]; by left.
    + apply Hlink. apply in_or_app. right. by left.
Qed.

(** *** The file system *)

Lemma parent_prefix (p : Path) : pathlib.parent p `prefix_of` p.
Proof.
  unfold pathlib.parent. destruct p as [|r [|x p]].
  - done.
  - destruct (Py.startswith r "/"); [done | apply prefix_nil].
  - destruct (exists_last (l := r :: x :: p)) as (l' & y & ->); [done|].
    rewrite removelast_last. by apply prefix_app_r.
Qed.

Lemma mkdir_from_frame (rest : list string) :
  forall (pre : Path) (F F1 : FS) (p : Path),
    mkdir_from pre rest F = Some F1 ->
    ~ p `prefix_of` pre ++ rest -> F1 !! p = F !! p.
Proof.
  induction rest as [|seg rest IH]; intros pre F F1 p; cbn [mkdir_from].
  - by intros [= <-].
  - intros Hmk Hp.
    assert (~ p `prefix_of` (pre ++ [seg]) ++ rest) as Hp'
      by (by rewrite <- app_assoc).
    assert (p <> pre ++ [seg]) as Hne.
    { intros ->. apply Hp'. by apply prefix_app_r. }
    destruct (F !! (pre ++ [seg])) as [[c|]|] eqn:E; [done| |].
    + by apply (IH _ _ _ _ Hmk).
    + rewrite (IH _ _ _ _ Hmk Hp'). by rewrite lookup_insert_ne.
Qed.

(** [mkdir] adds directories only. *)
Lemma mkdir_from_files (rest : list string) :
  forall (pre : Path) (F F1 : FS) (p : Path) (c : list Byte.byte),
    mkdir_from pre rest F = Some F1 ->
    (F1 !! p = Some (File c) <-> F !! p = Some (File c)).
Proof.
  induction rest as [|seg rest IH]; intros pre F F1 p c; cbn [mkdir_from].
  - by intros [= <-].
  - destruct (F !! (pre ++ [seg])) as [[c'|]|] eqn:E; [done| |].
    + apply IH.
    + intros Hmk. rewrite (IH _ _ _ _ _ Hmk).
      destruct (decide (pre ++ [seg] = p)) as [<-|Hne].
      * rewrite lookup_insert_eq, E. split; done.
      * by rewrite lookup_insert_ne.
Qed.

(** After [mkdir], the path and each of its ancestors is a directory. *)
Lemma mkdir_from_dirs (rest : list string) :
  forall (pre : Path) (F F1 : FS) (q : list string),
    mkdir_from pre rest F = Some F1 ->
    q <> [] -> q `prefix_of` rest -> F1 !! (pre ++ q) = Some Dir.
Proof.
  induction rest as [|seg rest IH]; intros pre F F1 q; cbn [mkdir_from].
  - intros _ Hq Hpre. by apply prefix_nil_inv in Hpre.
  - intros Hmk Hq Hpre. destruct q as [|x q]; [done|].
    pose proof (prefix_cons_inv_1 _ _ _ _ Hpre) as ->.
    apply prefix_cons_inv_2 in Hpre.
    assert (exists F', mkdir_from (pre ++ [seg]) rest F' = Some F1
                       /\ F' !! (pre ++ [seg]) = Some Dir) as (F' & Hmk' & Hd).
    { destruct (F !! (pre ++ [seg])) as [[c|]|] eqn:E; [done| |].
      - by exists F.
      - eexists. split; [exact Hmk|]. by rewrite lookup_insert_eq. }
    destruct q as [|y q].
    + by apply (mkdir_from_preserves _ _ _ _ _ _ Hmk').
    + replace (pre ++ seg :: y :: q) with ((pre ++ [seg]) ++ y :: q)
        by (by rewrite <- app_assoc).
      by apply (IH _ _ _ _ Hmk').
Qed.

(** [mkdir] fails exactly when the path or one of its ancestors is a
    regular file. *)
Lemma mkdir_from_None (rest : list string) :
  forall (pre : Path) (F : FS),
    mkdir_from pre rest F = None <->
    exists q c, q <> [] /\ q `prefix_of` rest /\ F !! (pre ++ q) = Some (File c).
Proof.
  induction rest as [|seg rest IH]; intros pre F; cbn [mkdir_from].
  - split; [done|]. intros (q & c & Hq & Hpre & _).
    by apply prefix_nil_inv in Hpre.
  - assert (forall F', (forall p c, F' !! p = Some (File c) <-> F !! p = Some (File c)) ->
              F !! (pre ++ [seg]) <> None \/ True ->
              (mkdir_from (pre ++ [seg]) rest F' = None <->
               exists q c, q <> [] /\ q `prefix_of` rest
                           /\ F !! ((pre ++ [seg]) ++ q) = Some (File c))) as Hrec.
    { intros F' HF' _. rewrite IH. split; intros (q & c & Hq & Hpre & Hl);
        exists q, c; (split; [done|]); (split; [done|]); by apply HF'. }
    destruct (F !! (pre ++ [seg])) as [[c|]|] eqn:E.
    + split; [|done]. intros _. exists [seg], c.
      split; [done|]. split; [|done]. by apply prefix_cons, prefix_nil.
    + rewrite (Hrec F) by (done || by left). split.
      * intros (q & c & Hq & Hpre & Hl). exists (seg :: q), c.
        split; [done|]. split; [by apply prefix_cons|].
        by rewrite <- app_assoc in Hl.
      * intros (q & c & Hq & Hpre & Hl). destruct q as [|x q]; [done|].
        pose proof (prefix_cons_inv_1 _ _ _ _ Hpre) as ->.
        apply prefix_cons_inv_2 in Hpre.
        destruct q as [|y q]; [congruence|].
        exists (y :: q), c. split; [done|]. split; [done|].
        by rewrite <- app_assoc.
    + rewrite (Hrec (<[pre ++ [seg] := Dir]> F)); [|
        intros p c; destruct (decide (pre ++ [seg] = p)) as [<-|Hne];
          [rewrite lookup_insert_eq, E; split; done
          | by rewrite lookup_insert_ne] | by right].
      split.
      * intros (q & c & Hq & Hpre & Hl). exists (seg :: q), c.
        split; [done|]. split; [by apply prefix_cons|].
        by rewrite <- app_assoc in Hl.
      * intros (q & c & Hq & Hpre & Hl). destruct q as [|x q]; [done|].
        pose proof (prefix_cons_inv_1 _ _ _ _ Hpre) as ->.
        apply prefix_cons_inv_2 in Hpre.
        destruct q as [|y q]; [congruence|].
        exists (y :: q), c. split; [done|]. split; [done|].
        by rewrite <- app_assoc.
Qed.

Lemma download_file_keeps (url : string) (dest : Path) (dry : bool)
    (exp : option Z) (F F' : FS) (r : Completion) (out : list Event) :
  download_file net dsz url dest dry exp F = (r, F', out) ->
  (forall p, ~ p `prefix_of` dest -> F' !! p = F !! p)
  /\ (forall p x, F !! p = Some x -> p <> dest -> F' !! p = Some x)
  /\ (forall p, is_Some (F !! p) -> is_Some (F' !! p))
  /\ (forall p, F !! p = Some Dir -> F' !! p = Some Dir).
Proof.
  rewrite download_file_unfold.
  destruct (_ && _); [by intros [= _ <- _]|]. cbv zeta.
  destruct dry; [by intros [= _ <- _]|].
  destruct (mkdir _ F) as [F1|] eqn:Hmk; [|by intros [= _ <- _]].
  assert (forall p, ~ p `prefix_of` dest -> F1 !! p = F !! p) as Hframe.
  { intros p Hp. apply (mkdir_from_frame _ _ _ _ _ Hmk). cbn [app].
    intros Hpp. apply Hp. etrans; [exact Hpp | apply parent_prefix]. }
  assert (forall p x, F !! p = Some x -> F1 !! p = Some x) as Hkeep
    by (intros p x; apply (mkdir_from_preserves _ _ _ _ _ _ Hmk)).
  assert (forall p, is_Some (F !! p) -> is_Some (F1 !! p)) as Hsome
    by (intros p [x Hx]; exists x; by apply Hkeep).
  assert ((forall p, ~ p `prefix_of` dest -> F1 !! p = F !! p)
          /\ (forall p x, F !! p = Some x -> p <> dest -> F1 !! p = Some x)
          /\ (forall p, is_Some (F !! p) -> is_Some (F1 !! p))
          /\ (forall p, F !! p = Some Dir -> F1 !! p = Some Dir)) as HF1.
  { repeat split; try done; intros; by apply Hkeep. }
  destruct (body net url) as [data|]; [|by intros [= _ <- _]].
  destruct (write_file dest data F1) as [F2|] eqn:Hwr; [|by intros [= _ <- _]].
  pose proof Hwr as Hwr'. apply write_file_Some in Hwr' as ->.
  intros [= _ <- _]. repeat split.
  - intros p Hp. rewrite lookup_insert_ne; [by apply Hframe|].
    by intros <-.
  - intros p x Hx Hne. rewrite lookup_insert_ne by done. by apply Hkeep.
  - intros p Hp. destruct (decide (dest = p)) as [<-|Hne].
    + by rewrite lookup_insert_eq.
    + rewrite lookup_insert_ne by done. by apply Hsome.
  - intros p Hp. destruct (decide (dest = p)) as [<-|Hne].
    + apply Hkeep in Hp. unfold write_file in Hwr.
      destruct dest; [done|]. by rewrite Hp in Hwr.
    + rewrite lookup_insert_ne by done. by apply Hkeep.
Qed.


(** When [download_file] has requested the body and returns, every
    ancestor of the destination is a directory and the destination is a
    regular file. *)
Theorem download_file_makes_parents (url : string) (dest : Path) (dry : bool)
    (exp : option Z) (F F' : FS) (out : list Event) :
  download_file net dsz url dest dry exp F = (Returned, F', out) ->
  In (GET_file url) out ->
  (exists data, F' !! dest = Some (File data))
  /\ (forall q, q <> [] -> q `prefix_of` pathlib.parent dest ->
        F' !! q = Some Dir).
Proof.
  rewrite download_file_unfold.
  destruct (_ && _); [by intros [= <- <-] [?|[]]|]. cbv zeta.
  set (info := if path_exists F dest then _ else _).
  assert (~ In (GET_file url) info) as Hinfo.
  { intros Hin. by apply not_in_info in Hin. }
  destruct dry.
  { intros [= <- <-] Hin. apply in_app_or in Hin as [?|[?|[]]]; done. }
  destruct (mkdir _ F) as [F1|] eqn:Hmk; [|done].
  destruct (body net url) as [data|]; [|done].
  destruct (write_file dest data F1) as [F2|] eqn:Hwr; [|done].
  pose proof Hwr as Hwr'. apply write_file_Some in Hwr' as ->.
  intros [= <- <-] _. split.
  - exists data. by rewrite lookup_insert_eq.
  - intros q Hq Hpre.
    pose proof (mkdir_from_dirs _ [] _ _ q Hmk Hq Hpre) as Hd. cbn [app] in Hd.
    rewrite lookup_insert_ne; [done|]. intros <-.
    unfold write_file in Hwr. destruct dest; [done|]. by rewrite Hd in Hwr.
Qed.

Lemma build_local_path_app (url base : string) (dest_root : Path) :
  exists parts, build_local_path url base dest_root = dest_root ++ parts.
Proof.
  unfold build_local_path. cbv zeta.
  match goal with
  | |- context [pathlib.parts ?r] => exists (pathlib.components r)
  end.
  destruct (Py.is_empty _); apply joinpath_parts;
    [apply name_not_slash | apply lstrip_not_slash].
Qed.

(** The local path of a file is always the destination root followed by
    parts taken from the URL, each a non-empty path segment without a
    slash and different from [.]; so it is the root itself or lies below
    it, part by part.  (A part [..] is not excluded.) *)
Theorem build_local_path_below_dest (url base : string) (dest_root : Path) :
  exists parts,
    build_local_path url base dest_root = dest_root ++ parts
    /\ Forall (fun seg => seg <> "" /\ seg <> "." /\ Py.contains "/" seg = false)
         parts.
Proof.
  unfold build_local_path. cbv zeta.
  match goal with
  | |- context [pathlib.parts ?r] => exists (pathlib.components r); split
  end.
  - destruct (Py.is_empty _); apply joinpath_parts;
      [apply name_not_slash | apply lstrip_not_slash].
  - rewrite List.Forall_forall. intros seg Hseg.
    unfold pathlib.components in Hseg. apply filter_In in Hseg as [Hin Hok].
    apply andb_true_iff in Hok as [He Hd].
    split; [by destruct seg|]. split.
    + intros ->. by rewrite String.eqb_refl in Hd.
    + by apply split_no_sep in Hin.
Qed.

(** *** The crawl stays in the destination tree *)

Lemma confined_refl (dest : Path) (F : FS) : confined_to dest F F.
Proof. by repeat split. Qed.

Lemma confined_trans (dest : Path) (F1 F2 F3 : FS) :
  confined_to dest F1 F2 -> confined_to dest F2 F3 -> confined_to dest F1 F3.
Proof.
  intros (Ha1 & Hb1 & Hc1) (Ha2 & Hb2 & Hc2). repeat split.
  - intros p Hp Hp'. by rewrite Ha2, Ha1.
  - intros p Hp. by apply Hb2, Hb1.
  - intros p Hp. by apply Hc2, Hc1.
Qed.

Lemma process_link_confined (base : string) (dest : Path) (dry : bool)
    (current href : string) (st st' : State) (r : Completion) (out : list Event) :
  process_link net dsz base dest dry current href st = (r, st', out) ->
  confined_to dest (fs st) (fs st').
Proof.
  rewrite process_link_resolve.
  destruct (resolve_link base current href) as [|a|a];
    try (intros [= _ <- _]; apply confined_refl).
  unfold dispatch_file.
  destruct (get_remote_file_size net a) as [sz probe].
  destruct (download_file _ _ _ _ _ _ _) as [[r0 F'] out0] eqn:Hd.
  apply download_file_keeps in Hd as (Ha & _ & Hb & Hc).
  assert (confined_to dest (fs st) F') as Hconf.
  { repeat split; [|done|done]. intros p Hp Hp'. apply Ha.
    destruct (build_local_path_app a base dest) as (parts & ->).
    intros Hpp.
    destruct (prefix_weak_total p dest (dest ++ parts)) as [?|?];
      [done | by apply prefix_app_r | done | done]. }
  destruct r0 as [|[|]]; by intros [= _ <- _].
Qed.

Lemma for_links_confined (base : string) (dest : Path) (dry : bool)
    (current : string) (hrefs : list string) :
  forall (st st' : State) (r : Completion) (out : list Event),
    for_links net dsz base dest dry current hrefs st = (r, st', out) ->
    confined_to dest (fs st) (fs st').
Proof.
  induction hrefs as [|href hrefs IH]; intros st st' r out; cbn [for_links].
  - intros [= _ <- _]. apply confined_refl.
  - destruct (process_link _ _ _ _ _ _ _ _) as [[r1 st1] out1] eqn:H1.
    apply process_link_confined in H1.
    destruct r1.
    + destruct (for_links _ _ _ _ _ _ _ _) as [[r2 st2] out2] eqn:H2.
      apply IH in H2. intros [= _ <- _]. by eapply confined_trans.
    + by intros [= _ <- _].
Qed.

Lemma while_queue_confined (fuel : nat) (base : string) (dest : Path)
    (dry : bool) :
  forall (st st' : State) (r : Status) (out : list Event),
    while_queue net dsz fuel base dest dry st = (r, st', out) ->
    confined_to dest (fs st) (fs st').
Proof.
  induction fuel as [|fuel IH]; intros st st' r out.
  - cbn [while_queue]. destruct (pop (queue st)) as [[c q]|];
      intros [= _ <- _]; apply confined_refl.
  - destruct (queue_cases (queue st)) as [Hq|(rest & current & Hq)].
    { rewrite while_queue_empty by done. intros [= _ <- _]. apply confined_refl. }
    rewrite (while_queue_step net dsz _ _ _ _ _ _ _ Hq).
    destruct (visit _ _ _ _ _ _ _) as [[r1 st1] out1] eqn:H1.
    assert (confined_to dest (fs st) (fs st1)) as Hc1.
    { destruct (decide (normalize_directory_url current ∈ visited st)) as [Hin|Hin].
      - rewrite visit_seen in H1 by done. injection H1 as _ <- _.
        apply confined_refl.
      - rewrite visit_new in H1 by done. cbv zeta in H1.
        destruct (fetch_links net current) as [hrefs|].
        + destruct (for_links _ _ _ _ _ _ _ _) as [[r2 st2] out2] eqn:H2.
          apply for_links_confined in H2. by injection H1 as _ <- _.
        + injection H1 as _ <- _. apply confined_refl. }
    destruct r1.
    + destruct (while_queue _ _ _ _ _ _ _) as [[r2 st2] out2] eqn:H2.
      apply IH in H2. intros [= _ <- _]. by eapply confined_trans.
    + by intros [= _ <- _].
Qed.


(** *** Files whose size or body the server withholds *)

Lemma resolve_link_pdf (base current href : string) :
  should_skip_link href = false ->
  is_in_scope (fst (urldefrag (urljoin current href))) base = true ->
  classify_link href = "pdf" ->
  resolve_link base current href
  = Download (fst (urldefrag (urljoin current href))).
Proof.
  intros Hskip Hscope Hpdf. unfold resolve_link. rewrite Hskip. cbv zeta.
  unfold is_in_scope in Hscope. apply andb_true_iff in Hscope as [-> ->].
  by rewrite Hpdf.
Qed.

(** A size that cannot be learnt (the probe fails, or the reply has no
    [Content-Length]) never keeps a file from being fetched: outside
    dry-run mode the loop body requests the body of every in-scope [pdf]
    link of unknown size, unless the file system refuses the parent
    directories; and when the body arrives and the call returns, the file
    is stored at its local path. *)
Theorem unknown_size_is_fetched (base : string) (dest : Path)
    (current href : string) (st st' : State) (r : Completion) (out : list Event) :
  let absolute := fst (urldefrag (urljoin current href)) in
  should_skip_link href = false ->
  is_in_scope absolute base = true ->
  classify_link href = "pdf" ->
  fst (get_remote_file_size net absolute) = None ->
  process_link net dsz base dest false current href st = (r, st', out) ->
  (r = Raised OSError \/ In (GET_file absolute) out)
  /\ (forall data, r = Returned -> body net absolute = Some data ->
        fs st' !! build_local_path absolute base dest = Some (File data)).
Proof.
  intros absolute Hskip Hscope Hpdf Hsize.
  rewrite process_link_resolve, (resolve_link_pdf _ _ _ Hskip Hscope Hpdf).
  fold absolute. unfold dispatch_file.
  destruct (get_remote_file_size net absolute) as [sz probe].
  cbn [fst] in Hsize. subst sz.
  rewrite download_file_unfold, andb_false_r. cbv zeta.
  destruct (mkdir _ _) as [F1|]; [|intros [= <- _ _]; split; [by left|done]].
  destruct (body net absolute) as [data|].
  2:{ intros [= <- <- <-]. split; [|done]. right.
      apply in_or_app. right. apply in_or_app. left.
      apply in_or_app. right. by left. }
  destruct (write_file _ data F1) as [F2|] eqn:Hwr;
    [|intros [= <- _ _]; split; [by left|done]].
  apply write_file_Some in Hwr as ->.
  intros [= <- <- <-]. split.
  - right. apply in_or_app. right. apply in_or_app. right. by left.
  - intros data' _ [= <-]. cbn [fs]. by rewrite lookup_insert_eq.
Qed.

(** A file whose body cannot be fetched does not stop the run: the loop
    body never lets the [URLError] out, it creates no regular file and
    changes none, and outside dry-run mode, unless the local copy was
    skipped, it ends its report with the request and the warning. *)
Theorem failed_download_is_survived (base : string) (dest : Path) (dry : bool)
    (current href : string) (st st' : State) (r : Completion) (out : list Event) :
  let absolute := fst (urldefrag (urljoin current href)) in
  should_skip_link href = false ->
  is_in_scope absolute base = true ->
  classify_link href = "pdf" ->
  body net absolute = None ->
  process_link net dsz base dest dry current href st = (r, st', out) ->
  r <> Raised URLError
  /\ (forall p c, fs st' !! p = Some (File c) <-> fs st !! p = Some (File c))
  /\ (dry = false -> r = Returned ->
      (exists n, In (SKIP (build_local_path absolute base dest) n) out)
      \/ exists pre, out = pre ++ [GET_file absolute; WARN_download absolute]).
Proof.
  intros absolute Hskip Hscope Hpdf Hbody.
  rewrite process_link_resolve, (resolve_link_pdf _ _ _ Hskip Hscope Hpdf).
  fold absolute. unfold dispatch_file.
  destruct (get_remote_file_size net absolute) as [sz probe].
  rewrite download_file_unfold.
  destruct (_ && _).
  { intros [= <- <- <-]. split; [done|]. split; [done|]. intros _ _. left.
    eexists. apply in_or_app. right. by left. }
  cbv zeta. destruct dry.
  { by intros [= <- <- <-]. }
  destruct (mkdir _ _) as [F1|] eqn:Hmk; [|by intros [= <- <- <-]].
  rewrite Hbody. intros [= <- <- <-]. split; [done|]. split.
  - intros p c. cbn [fs]. apply (mkdir_from_files _ _ _ _ _ _ Hmk).
  - intros _ _. right.
    set (info := if path_exists _ _ then _ else _).
    exists ((probe ++ [FILE absolute sz]) ++ info).
    by rewrite <- !app_assoc.
Qed.

(** *** What a real run leaves behind *)


(** *** [main] *)

(** [main] makes the destination directory before it crawls, in dry-run
    mode too; its path comes from [os.path.abspath] and so has no part
    [..].  When the destination or one of its ancestors is a regular
    file, [main] raises before any request.  When [main] returns, the
    destination is a directory; and in dry-run mode the directories made
    for the destination are the only change to the file system, the
    dry-run line is printed, and no file body is requested. *)
Theorem main_prepares_destination (abspath : string -> Path) (fuel : nat)
    (args : Namespace) (fs0 : FS) :
  let dest_root := abspath (args_dest args) in
  ~ In ".." dest_root ->
  ((exists q c, q <> [] /\ q `prefix_of` dest_root /\ fs0 !! q = Some (File c)) ->
   main net dsz abspath fuel args fs0 = None)
  /\ (forall banner status st out,
        main net dsz abspath fuel args fs0 = Some (banner, (status, st, out)) ->
        (dest_root <> [] -> fs st !! dest_root = Some Dir)
        /\ (args_dry_run args = true ->
            mkdir dest_root fs0 = Some (fs st)
            /\ In DRY_RUN_MODE banner
            /\ forall u, ~ In (GET_file u) out)).
Proof.
  intros dest_root _. unfold main. fold dest_root.
  pose proof (mkdir_from_None dest_root [] fs0) as Hnone. cbn [app] in Hnone.
  fold (mkdir dest_root fs0) in Hnone.
  split.
  - intros Hfile. apply Hnone in Hfile. by rewrite Hfile.
  - intros banner status st out.
    destruct (mkdir dest_root fs0) as [F1|] eqn:Hmk; [|done].
    intros [= <- Hrun]. unfold crawl in Hrun.
    pose proof (while_queue_confined _ _ _ _ _ _ _ _ Hrun) as (_ & _ & Hc).
    cbn [fs] in Hc. split.
    + intros Hne. apply Hc.
      pose proof (mkdir_from_dirs _ [] _ _ dest_root Hmk Hne) as Hd.
      by apply Hd.
    + intros Hdry. rewrite Hdry in *.
      apply while_queue_dry in Hrun as (_ & Hfs & Hg). cbn [fs] in Hfs.
      split; [by rewrite Hfs|]. split; [right; right; by left|].
      intros u Hu. rewrite List.Forall_forall in Hg. by apply Hg in Hu.
Qed.

End CrawlCoverage.

(** ** The further properties on the sample sites *)

(** The link [gone/] of [flaky_site] is queued, and is a directory. *)
Lemma link_effects_follow_class_witness :
  process_link flaky_site 4096%Z "https://h/images/" ["/"; "out"] true
    "https://h/images/" "gone/" (mkState [] ∅ out_dir)
  = (Returned, mkState ["https://h/images/gone/"] ∅ out_dir,
     [QUEUE "https://h/images/gone/"])
  /\ classify_link "gone/" = "dir".
Proof.
  assert (process_link flaky_site 4096%Z "https://h/images/" ["/"; "out"] true
            "https://h/images/" "gone/" (mkState [] ∅ out_dir)
          = (Returned, mkState ["https://h/images/gone/"] ∅ out_dir,
             [QUEUE "https://h/images/gone/"]))
    as H by (vm_compute; reflexivity).
  split; [exact H|].
  destruct (proj1 (link_effects_follow_class flaky_site 4096%Z _ _ _ _ _ _ _ _ _ H)
              "https://h/images/gone/" (or_introl eq_refl)) as (_ & Hc & _).
  exact Hc.
Defined.

(** The run over [flaky_site], where a listing and a body fail, finishes. *)
Lemma crawl_catches_URLError_witness :
  crawl flaky_site 4096%Z 5 "https://h/images/" ["/"; "out"] false out_dir
  = (Finished,
     mkState [] {[ "https://h/images/"; "https://h/images/gone/" ]} flaky_tree,
     flaky_log)
  /\ Finished <> Aborted URLError.
Proof.
  split; [exact flaky_run|].
  exact (crawl_catches_URLError flaky_site 4096%Z _ _ _ _ _ _ _ _ flaky_run).
Defined.

(** The visited set of the run over [flaky_site]. *)
Lemma visited_is_what_was_fetched_witness :
  crawl flaky_site 4096%Z 5 "https://h/images/" ["/"; "out"] false out_dir
  = (Finished,
     mkState [] {[ "https://h/images/"; "https://h/images/gone/" ]} flaky_tree,
     flaky_log)
  /\ ({[ "https://h/images/"; "https://h/images/gone/" ]} : gset string)
     = list_to_set (map normalize_directory_url (fetched flaky_log)).
Proof.
  split; [exact flaky_run|].
  exact (visited_is_what_was_fetched flaky_site 4096%Z _ _ _ _ _ _ _ _ flaky_run).
Defined.

(** The directory [gone/] of [flaky_site] was queued, so its listing was
    requested. *)
Lemma finished_crawl_visited_all_witness :
  crawl flaky_site 4096%Z 5 "https://h/images/" ["/"; "out"] false out_dir
  = (Finished,
     mkState [] {[ "https://h/images/"; "https://h/images/gone/" ]} flaky_tree,
     flaky_log)
  /\ exists v, In (GET_listing v) flaky_log
               /\ normalize_directory_url v
                  = normalize_directory_url "https://h/images/gone/".
Proof.
  split; [exact flaky_run|].
  apply (finished_crawl_visited_all flaky_site 4096%Z _ _ _ _ _ _ _ flaky_run
           "https://h/images/gone/").
  right. left. reflexivity.
Defined.

(** The file [ok.pdf] of the page of [flaky_site] was probed. *)
Lemma no_link_is_lost_witness :
  crawl flaky_site 4096%Z 5 "https://h/images/" ["/"; "out"] false out_dir
  = (Finished,
     mkState [] {[ "https://h/images/"; "https://h/images/gone/" ]} flaky_tree,
     flaky_log)
  /\ fetch_links flaky_site "https://h/images/"
     = Some ["gone/"; "lost.pdf"; "ok.pdf"]
  /\ In (HEAD_file "https://h/images/ok.pdf") flaky_log.
Proof.
  assert (fetch_links flaky_site "https://h/images/"
          = Some ["gone/"; "lost.pdf"; "ok.pdf"]) as Hf by reflexivity.
  split; [exact flaky_run|]. split; [exact Hf|].
  assert (In (GET_listing "https://h/images/") flaky_log) as Hg
    by (right; left; reflexivity).
  assert (In "ok.pdf" ["gone/"; "lost.pdf"; "ok.pdf"]) as Hin
    by (right; right; left; reflexivity).
  assert (is_in_scope (fst (urldefrag (urljoin "https://h/images/" "ok.pdf")))
            (normalize_directory_url "https://h/images/") = true) as Hs
    by (vm_compute; reflexivity).
  destruct (no_link_is_lost flaky_site 4096%Z _ _ _ _ _ _ _ _
              "https://h/images/" "ok.pdf" _ flaky_run
              ltac:(discriminate) Hg Hf Hin eq_refl Hs) as [_ Hpdf].
  exact (proj1 (Hpdf eq_refl)).
Defined.


(** The download of [ok.pdf] into an empty file system creates [/] and
    [/out] on the way. *)
Lemma download_file_makes_parents_witness :
  download_file flaky_site 4096%Z "https://h/images/ok.pdf"
    ["/"; "out"; "ok.pdf"] false (Some 3%Z) ∅
  = (Returned,
     <[ ["/"; "out"; "ok.pdf"] := File three_bytes ]>
       (<[ ["/"; "out"] := Dir ]> (<[ ["/"] := Dir ]> ∅)),
     [GET_file "https://h/images/ok.pdf";
      DOWNLOADED "https://h/images/ok.pdf" ["/"; "out"; "ok.pdf"] 3])
  /\ (<[ ["/"; "out"; "ok.pdf"] := File three_bytes ]>
        (<[ ["/"; "out"] := Dir ]> (<[ ["/"] := Dir ]> (∅ : FS))))
     !! ["/"; "out"] = Some Dir.
Proof.
  assert (download_file flaky_site 4096%Z "https://h/images/ok.pdf"
            ["/"; "out"; "ok.pdf"] false (Some 3%Z) ∅
          = (Returned,
             <[ ["/"; "out"; "ok.pdf"] := File three_bytes ]>
               (<[ ["/"; "out"] := Dir ]> (<[ ["/"] := Dir ]> ∅)),
             [GET_file "https://h/images/ok.pdf";
              DOWNLOADED "https://h/images/ok.pdf" ["/"; "out"; "ok.pdf"] 3]))
    as H by (vm_compute; reflexivity).
  split; [exact H|].
  apply (proj2 (download_file_makes_parents flaky_site 4096%Z _ _ _ _ _ _ _ H
                  ltac:(left; reflexivity)) ["/"; "out"]); [done|].
  by exists [].
Defined.



(** The file of [unsized_site], whose size is not announced, is fetched
    and stored. *)
Lemma unknown_size_is_fetched_witness :
  process_link unsized_site 4096%Z "https://h/images/" ["/"; "out"] false
    "https://h/images/" "top.pdf" (mkState [] ∅ out_dir)
  = (Returned, mkState [] ∅ unsized_tree,
     [HEAD_file "https://h/images/top.pdf";
      FILE "https://h/images/top.pdf" None;
      GET_file "https://h/images/top.pdf";
      DOWNLOADED "https://h/images/top.pdf" ["/"; "out"; "top.pdf"] 3])
  /\ unsized_tree !! ["/"; "out"; "top.pdf"] = Some (File three_bytes).
Proof.
  assert (process_link unsized_site 4096%Z "https://h/images/" ["/"; "out"] false
            "https://h/images/" "top.pdf" (mkState [] ∅ out_dir)
          = (Returned, mkState [] ∅ unsized_tree,
             [HEAD_file "https://h/images/top.pdf";
              FILE "https://h/images/top.pdf" None;
              GET_file "https://h/images/top.pdf";
              DOWNLOADED "https://h/images/top.pdf" ["/"; "out"; "top.pdf"] 3]))
    as H by (vm_compute; reflexivity).
  split; [exact H|].
  assert (is_in_scope (fst (urldefrag (urljoin "https://h/images/" "top.pdf")))
            "https://h/images/" = true) as Hs by (vm_compute; reflexivity).
  assert (fst (get_remote_file_size unsized_site
                 (fst (urldefrag (urljoin "https://h/images/" "top.pdf")))) = None)
    as Hn by (vm_compute; reflexivity).
  assert (body unsized_site
            (fst (urldefrag (urljoin "https://h/images/" "top.pdf")))
          = Some three_bytes) as Hb by reflexivity.
  exact (proj2 (unknown_size_is_fetched unsized_site 4096%Z "https://h/images/"
                  ["/"; "out"] "https://h/images/" "top.pdf" _ _ _ _
                  eq_refl Hs eq_refl Hn H) three_bytes eq_refl Hb).
Defined.

(** The file [lost.pdf] of [flaky_site], whose body cannot be fetched. *)
Lemma failed_download_is_survived_witness :
  process_link flaky_site 4096%Z "https://h/images/" ["/"; "out"] false
    "https://h/images/" "lost.pdf" (mkState [] ∅ out_dir)
  = (Returned, mkState [] ∅ out_dir,
     [HEAD_file "https://h/images/lost.pdf";
      INFO_size "https://h/images/lost.pdf";
      FILE "https://h/images/lost.pdf" None;
      GET_file "https://h/images/lost.pdf";
      WARN_download "https://h/images/lost.pdf"])
  /\ Returned <> Raised URLError.
Proof.
  assert (process_link flaky_site 4096%Z "https://h/images/" ["/"; "out"] false
            "https://h/images/" "lost.pdf" (mkState [] ∅ out_dir)
          = (Returned, mkState [] ∅ out_dir,
             [HEAD_file "https://h/images/lost.pdf";
              INFO_size "https://h/images/lost.pdf";
              FILE "https://h/images/lost.pdf" None;
              GET_file "https://h/images/lost.pdf";
              WARN_download "https://h/images/lost.pdf"]))
    as H by (vm_compute; reflexivity).
  split; [exact H|].
  assert (is_in_scope (fst (urldefrag (urljoin "https://h/images/" "lost.pdf")))
            "https://h/images/" = true) as Hs by (vm_compute; reflexivity).
  assert (body flaky_site
            (fst (urldefrag (urljoin "https://h/images/" "lost.pdf"))) = None)
    as Hb by (vm_compute; reflexivity).
  exact (proj1 (failed_download_is_survived flaky_site 4096%Z "https://h/images/"
                  ["/"; "out"] false "https://h/images/" "lost.pdf" _ _ _ _
                  eq_refl Hs eq_refl Hb H)).
Defined.


(** [main] raises when the destination is a regular file. *)
Lemma main_prepares_destination_witness :
  main flaky_site 4096%Z (fun _ => ["/"; "out"]) 5
    (mkNamespace "https://h/images/" "out" true)
    {[ ["/"] := Dir; ["/"; "out"] := File three_bytes ]}
  = None.
Proof.
  assert (~ In ".." ["/"; "out"]) as Hd.
  { intros Hd. repeat (destruct Hd as [Hd|Hd]; [discriminate Hd|]). destruct Hd. }
  apply (proj1 (main_prepares_destination flaky_site 4096%Z
                  (fun _ => ["/"; "out"]) 5
                  (mkNamespace "https://h/images/" "out" true)
                  {[ ["/"] := Dir; ["/"; "out"] := File three_bytes ]} Hd)).
  exists ["/"; "out"], three_bytes.
  split; [discriminate|]. split; [by exists []|].
  vm_compute. reflexivity.
Defined.

(** ** Normalisation twice, under CPython's [urllib] *)

Lemma contains_append (c : ascii) (s t : string) :
  Py.contains c (s +:+ t) = Py.contains c s || Py.contains c t.
Proof.
  induction s as [|a s IH]; [done|].
  change (String a s +:+ t) with (String a (s +:+ t)).
  cbn [Py.contains]. by rewrite IH, orb_assoc.
Qed.

Lemma split1_fst (sep : ascii) (s a b : string) :
  Py.split1 sep s = Some (a, b) -> Py.contains sep a = false.
Proof.
  revert a b. induction s as [|c s IH]; intros a b; cbn [Py.split1]; [done|].
  destruct (Ascii.eqb c sep) eqn:E; [by intros [= <- _]|].
  destruct (Py.split1 sep s) as [[a' b']|]; [|done].
  intros [= <- <-]. cbn [Py.contains]. by rewrite E, (IH a' b').
Qed.

Lemma split1_None (sep : ascii) (s : string) :
  Py.split1 sep s = None -> Py.contains sep s = false.
Proof.
  induction s as [|c s IH]; cbn [Py.split1 Py.contains]; [done|].
  destruct (Ascii.eqb c sep); [done|].
  destruct (Py.split1 sep s) as [[a' b']|]; [done|]. intros _. by apply IH.
Qed.

Lemma split1_parts (c sep : ascii) (s a b : string) :
  Py.split1 sep s = Some (a, b) -> Py.contains c s = false ->
  Py.contains c a = false /\ Py.contains c b = false.
Proof.
  revert a b. induction s as [|d s IH]; intros a b; cbn [Py.split1 Py.contains];
    [done|].
  intros H Hc. apply orb_false_iff in Hc as [Hd Hs].
  destruct (Ascii.eqb d sep); [by injection H as <- <-|].
  destruct (Py.split1 sep s) as [[a' b']|]; [|done].
  injection H as <- <-. destruct (IH a' b' eq_refl Hs) as [Ha Hb].
  cbn [Py.contains]. by rewrite Hd, Ha.
Qed.

Lemma take_contains (c : ascii) (n : nat) (s : string) :
  Py.contains c s = false -> Py.contains c (Py.take n s) = false.
Proof.
  revert n. induction s as [|d s IH]; intros [|n]; cbn [Py.take Py.contains]; try done.
  intros H. apply orb_false_iff in H as [-> H]. by apply IH.
Qed.

Lemma split_contains (c sep : ascii) (s x : string) :
  Py.contains c s = false -> In x (Py.split sep s) -> Py.contains c x = false.
Proof.
  revert x. induction s as [|d s IH]; intros x; cbn [Py.split Py.contains].
  { by intros _ [<-|[]]. }
  intros H. apply orb_false_iff in H as [Hd H].
  destruct (Ascii.eqb d sep).
  - intros [<-|Hin]; [done|]. by apply IH.
  - destruct (Py.split sep s) as [|h t] eqn:E.
    + intros [<-|[]]. cbn [Py.contains]. by rewrite Hd.
    + intros [<-|Hin].
      * cbn [Py.contains]. rewrite Hd. apply IH; [done|by left].
      * apply IH; [done|by right].
Qed.

Lemma split_not_nil (sep : ascii) (s : string) : Py.split sep s <> [].
Proof.
  destruct s as [|d s]; cbn [Py.split]; [done|].
  destruct (Ascii.eqb d sep); [done|]. by destruct (Py.split sep s).
Qed.

Lemma last_In (l : list string) : l <> [] -> In (Py.last l) l.
Proof.
  unfold Py.last. induction l as [|x l IH]; [done|]. intros _.
  destruct l as [|y l]; [by left|]. right. by apply IH.
Qed.

Lemma splitparams_contains (c : ascii) (p : string) :
  Py.contains c p = false ->
  Py.contains c (fst (CPython.splitparams p)) = false
  /\ Py.contains c (snd (CPython.splitparams p)) = false.
Proof.
  intros Hp. unfold CPython.splitparams.
  destruct (Py.contains "/" p).
  - cbv zeta.
    assert (Py.contains c (Py.last (Py.split "/" p)) = false) as Hl.
    { apply (split_contains c "/" p); [done|]. apply last_In, split_not_nil. }
    destruct (Py.split1 ";" (Py.last (Py.split "/" p))) as [[a b]|] eqn:E;
      cbn [fst snd]; [|done].
    destruct (split1_parts c _ _ _ _ E Hl) as [Ha Hb].
    by rewrite contains_append, take_contains, Ha.
  - destruct (Py.split1 ";" p) as [[a b]|] eqn:E; cbn [fst snd].
    + exact (split1_parts c _ _ _ _ E Hp).
    + by rewrite take_contains.
Qed.

Lemma scheme_char_lower (c : ascii) :
  CPython.scheme_char c = true -> Ascii.eqb (Py.lower_char c) "#" = false.
Proof.
  destruct c as [[] [] [] [] [] [] [] []]; vm_compute; congruence.
Qed.

Lemma scheme_lower (s : string) :
  CPython.all_chars CPython.scheme_char s = true ->
  Py.contains "#" (Py.lower s) = false.
Proof.
  induction s as [|c s IH]; [done|]. cbn [CPython.all_chars Py.lower Py.contains].
  intros H. apply andb_true_iff in H as [Hc Hs].
  by rewrite (scheme_char_lower c Hc), IH.
Qed.

Lemma splitnetloc_fst (s : string) :
  Py.contains "#" (fst (CPython.splitnetloc s)) = false.
Proof.
  induction s as [|c s IH]; [done|]. cbn [CPython.splitnetloc].
  destruct (Py.contains c "/?#") eqn:E; [done|].
  destruct (CPython.splitnetloc s) as [n r]. cbn [fst] in *.
  cbn [Py.contains]. rewrite IH, orb_false_r.
  cbn [Py.contains] in E. rewrite orb_false_r in E.
  apply orb_false_iff in E as [_ E]. apply orb_false_iff in E as [_ E].
  by rewrite Ascii.eqb_sym.
Qed.

Lemma urlsplit_hashless (url : string) :
  match CPython.urlsplit url "" with
  | (sch, nl, p, q, _) =>
      Py.contains "#" sch = false /\ Py.contains "#" nl = false
      /\ Py.contains "#" p = false /\ Py.contains "#" q = false
  end.
Proof.
  unfold CPython.urlsplit.
  set (u0 := Py.remove_by _ (Py.lstrip_by _ url)).
  change (Py.remove_by CPython.unsafe_url_byte
            (Py.rstrip_by CPython.c0_control_or_space
               (Py.lstrip_by CPython.c0_control_or_space ""))) with "".
  cbv zeta.
  match goal with
  | |- context [match ?X with (sch, url) => _ end] =>
      assert (exists sch u1, X = (sch, u1) /\ Py.contains "#" sch = false)
        as (sch & u1 & -> & Hsch)
  end.
  { destruct (Py.split1 ":" u0) as [[[|c0 pre] post]|]; try by eexists _, _.
    destruct (_ && _) eqn:E; [|by eexists _, _].
    apply andb_true_iff in E as [_ E]. eexists _, _. split; [done|].
    by apply scheme_lower. }
  destruct (if Py.startswith u1 "//" then _ else _) as [nl u2] eqn:Hnl.
  assert (Py.contains "#" nl = false) as Hn.
  { destruct (Py.startswith u1 "//").
    - pose proof (splitnetloc_fst (Py.drop 2 u1)) as H. by rewrite Hnl in H.
    - by injection Hnl as <- _. }
  destruct (Py.split1 "#" u2) as [[u3 frag]|] eqn:Hf.
  - pose proof (split1_fst _ _ _ _ Hf) as H3.
    destruct (Py.split1 "?" u3) as [[p q]|] eqn:Hq.
    + by destruct (split1_parts "#" _ _ _ _ Hq H3).
    + done.
  - pose proof (split1_None _ _ Hf) as H3.
    destruct (Py.split1 "?" u2) as [[p q]|] eqn:Hq.
    + by destruct (split1_parts "#" _ _ _ _ Hq H3).
    + done.
Qed.

Lemma urlparse_hashless (url : string) :
  let r := CPython.urlparse url in
  Py.contains "#" (scheme r) = false /\ Py.contains "#" (netloc r) = false
  /\ Py.contains "#" (path r) = false /\ Py.contains "#" (params r) = false
  /\ Py.contains "#" (query r) = false.
Proof.
  unfold CPython.urlparse, CPython.urlparse_with.
  pose proof (urlsplit_hashless url) as H.
  destruct (CPython.urlsplit url "") as [[[[sch nl] p] q] f].
  destruct H as (Hs & Hn & Hp & Hq).
  destruct (_ && _).
  - destruct (splitparams_contains "#" p Hp) as [H1 H2].
    destruct (CPython.splitparams p) as [p' prm]. by cbn in *.
  - by cbn.
Qed.

Lemma urlunparse_hashless (r : ParseResult) :
  Py.contains "#" (scheme r) = false -> Py.contains "#" (netloc r) = false ->
  Py.contains "#" (path r) = false -> Py.contains "#" (params r) = false ->
  Py.contains "#" (query r) = false -> fragment r = "" ->
  Py.contains "#" (CPython.urlunparse r) = false.
Proof.
  intros Hs Hn Hp Hm Hq Hf. unfold CPython.urlunparse, CPython.urlunsplit.
  rewrite Hf. cbv zeta. cbn [Py.is_empty].
  assert (Py.contains "#"
            (if Py.is_empty (params r) then path r
             else path r +:+ ";" +:+ params r) = false) as Hu.
  { destruct (Py.is_empty _); [done|].
    by rewrite !contains_append, Hp, Hm. }
  revert Hu. generalize (if Py.is_empty (params r) then path r
                         else path r +:+ ";" +:+ params r).
  intros u Hu.
  repeat match goal with
         | |- context [if ?b then _ else _] => destruct b
         end;
    rewrite ?contains_append, ?Hs, ?Hn, ?Hq, ?Hu; done.
Qed.

Lemma urldefrag_hashless (url : string) :
  Py.contains "#" (fst (CPython.urldefrag url)) = false.
Proof.
  unfold CPython.urldefrag. destruct (Py.contains "#" url) eqn:E; [|done].
  cbv zeta. cbn [fst].
  destruct (urlparse_hashless url) as (Hs & Hn & Hp & Hm & Hq).
  by apply urlunparse_hashless.
Qed.

(** Under CPython's [urllib], normalising a URL twice is normalising it
    once: the result of [normalize_directory_url] has no fragment left and
    ends with a slash, so the function returns it as it is.  The root that
    [crawl] normalises and queues is therefore visited under its own
    name. *)
Theorem normalize_directory_url_idempotent (url : string) :
  normalize_directory_url (U := cpython) (normalize_directory_url (U := cpython) url)
  = normalize_directory_url (U := cpython) url.
Proof.
  assert (forall s, Py.contains "#" s = false -> Py.endswith s "/" = true ->
                    normalize_directory_url (U := cpython) s = s) as Hfix.
  { intros s Hs He. unfold normalize_directory_url.
    change (urldefrag s) with (CPython.urldefrag s).
    unfold CPython.urldefrag. rewrite Hs. cbn [fst]. by rewrite He. }
  pose proof (urldefrag_hashless url) as Hd.
  unfold normalize_directory_url at 2 3.
  change (urldefrag url) with (CPython.urldefrag url).
  destruct (Py.endswith (fst (CPython.urldefrag url)) "/") eqn:E; cbn [negb].
  - by apply Hfix.
  - apply Hfix.
    + by rewrite contains_append, Hd.
    + apply endswith_append.
Qed.
